(** * CatGPT: a Telegram bot that talks like a cat

    Shallow embedding of [catbot/ai.py] (class [Catifier]) and
    [catbot/bot.py] (class [CatBot]).

    Conventions of the embedding.
    - A Python [str] is a Rocq [string]; a character is a code point in
      U+0000..U+00FF (texts using code points above U+00FF are outside the
      model).
    - An [async] method is a computation in the monad [M]: it threads the
      world (the objects, the files on disk, the log and the calls made so
      far) and either returns a value or raises.  A raise keeps the world
      as it was when the exception left the method.
    - The OpenAI client, the Telegram bot and pydub are external: their
      answers are the fields of an environment [Env], each a function of
      the history of events so far and of the arguments of the call. *)

From Stdlib Require Import String Ascii NArith ZArith List Bool Lia.
From stdpp Require Import base option list strings gmap fin_maps.

(** ** Python string primitives used by the bot *)
Module PyStr.
Local Open Scope N_scope.

(** [s.split(sep, maxsplit)] for a one-character separator [sep]:
    [cur] is the piece being read. *)
Fixpoint split_aux (sep : ascii) (maxsplit : nat) (cur s : string) : list string :=
  match s with
  | EmptyString => [cur]
  | String a s' =>
      match maxsplit with
      | O => [cur +:+ s]
      | S n =>
          if Ascii.eqb a sep then cur :: split_aux sep n "" s'
          else split_aux sep maxsplit (cur +:+ String a "") s'
      end
  end.

Definition split (sep : ascii) (maxsplit : nat) (s : string) : list string :=
  split_aux sep maxsplit "" s.

Fixpoint contains (c : ascii) (s : string) : bool :=
  match s with
  | EmptyString => false
  | String a s' => Ascii.eqb a c || contains c s'
  end.

Definition quote1 : ascii := ascii_of_N 39.
Definition quote2 : ascii := ascii_of_N 34.
Definition backslash : ascii := ascii_of_N 92.

Definition hex_digit (n : N) : ascii :=
  if n <? 10 then ascii_of_N (48 + n) else ascii_of_N (87 + n).

(** [str.isprintable] on U+0000..U+00FF. *)
Definition isprintable (a : ascii) : bool :=
  let n := N_of_ascii a in
  ((32 <=? n) && (n <? 127)) || ((161 <=? n) && negb (n =? 173)).

Definition repr_char (quote a : ascii) : string :=
  let n := N_of_ascii a in
  if Ascii.eqb a quote || Ascii.eqb a backslash then String backslash (String a "")
  else if n =? 9 then String backslash "t"
  else if n =? 10 then String backslash "n"
  else if n =? 13 then String backslash "r"
  else if isprintable a then String a ""
  else String backslash (String "x" (String (hex_digit (n / 16)) (String (hex_digit (n mod 16)) ""))).

Fixpoint repr_body (quote : ascii) (s : string) : string :=
  match s with
  | EmptyString => ""
  | String a s' => repr_char quote a +:+ repr_body quote s'
  end.

(** [repr(s)]: double quotes only when [s] holds a single quote and no
    double quote. *)
Definition repr (s : string) : string :=
  let quote := if contains quote1 s && negb (contains quote2 s) then quote2 else quote1 in
  String quote (repr_body quote s +:+ String quote "").

(** [str(x)] of an optional string inside an f-string: [None] prints as
    the word None. *)
Definition format_opt (x : option string) : string :=
  match x with
  | Some s => s
  | None => "None"
  end.

End PyStr.

(** ** The fragment of [re] used by the mention gate *)
Module Re.
Local Open Scope N_scope.

Inductive regex : Type :=
| Eps
| Chr (c : ascii)
| Seq (r1 r2 : regex)
| Alt (r1 r2 : regex)
| WordBoundary.

(** The literal [s] as a sequence of characters. *)
Fixpoint lit (s : string) : regex :=
  match s with
  | EmptyString => Eps
  | String c s' => Seq (Chr c) (lit s')
  end.

(** [\w] of a [str] pattern: alphanumeric or underscore. *)
Definition is_word (a : ascii) : bool :=
  let n := N_of_ascii a in
  ((48 <=? n) && (n <=? 57)) || ((65 <=? n) && (n <=? 90)) || (n =? 95)
  || ((97 <=? n) && (n <=? 122))
  || (n =? 170) || (n =? 178) || (n =? 179) || (n =? 181) || (n =? 185) || (n =? 186)
  || ((188 <=? n) && (n <=? 190))
  || ((192 <=? n) && negb (n =? 215) && negb (n =? 247)).

Definition is_word_at (c : option ascii) : bool :=
  match c with
  | Some a => is_word a
  | None => false
  end.

(** Lower case of a code point. *)
Definition lower (a : ascii) : ascii :=
  let n := N_of_ascii a in
  if ((65 <=? n) && (n <=? 90)) || ((192 <=? n) && (n <=? 222) && negb (n =? 215))
  then ascii_of_N (n + 32) else a.

(** A pattern character [c] against the text character [a]. Under
    [re.IGNORECASE] the two are compared in lower case; a pattern character
    without case (such as the at sign) is then matched by itself only,
    since [lower] sends only letters to letters. *)
Definition chr_matches (ignorecase : bool) (c a : ascii) : bool :=
  if ignorecase then Ascii.eqb (lower a) (lower c) else Ascii.eqb a c.

Definition head (s : string) : option ascii :=
  match s with
  | EmptyString => None
  | String a _ => Some a
  end.

(** Backtracking matcher. A position in the text is the character before
    it ([prev], [None] at the start) and the text from it on; [k] is what
    remains to be matched after [r]. *)
Fixpoint rmatch (ic : bool) (r : regex) (prev : option ascii) (s : string)
    (k : option ascii -> string -> bool) : bool :=
  match r with
  | Eps => k prev s
  | Chr c =>
      match s with
      | EmptyString => false
      | String a s' => chr_matches ic c a && k (Some a) s'
      end
  | Seq r1 r2 => rmatch ic r1 prev s (fun p s' => rmatch ic r2 p s' k)
  | Alt r1 r2 => rmatch ic r1 prev s k || rmatch ic r2 prev s k
  | WordBoundary => xorb (is_word_at prev) (is_word_at (head s)) && k prev s
  end.

(** [re.search]: the first position from which the pattern matches. *)
Fixpoint search_from (ic : bool) (r : regex) (prev : option ascii) (s : string) : bool :=
  rmatch ic r prev s (fun _ _ => true)
  || match s with
     | EmptyString => false
     | String a s' => search_from ic r (Some a) s'
     end.

Definition search (ic : bool) (r : regex) (s : string) : bool :=
  search_from ic r None s.

(** The character before the position reached after reading [h] from a
    position whose previous character is [prev]. *)
Fixpoint last_char (prev : option ascii) (h : string) : option ascii :=
  match h with
  | EmptyString => prev
  | String a h' => last_char (Some a) h'
  end.

End Re.

(** ** Exceptions, results and the values exchanged with the services *)

Inductive Exn : Type :=
| AttributeError (attribute : string)
| IndexError
| KeyError (key : string)
| FileNotFoundError (path : string)
| ServiceError (what : string).

Inductive Result (A : Type) : Type :=
| Ok (a : A)
| Raise (e : Exn).
Arguments Ok {A} a.
Arguments Raise {A} e.

(** A role-tagged chat message, the dict with keys role and content. *)
Record ChatMessage : Type := { role : string; content : string }.

(** The part of a completion the bot reads:
    [completion.choices[i].message.content]. *)
Record Choice : Type := { choice_message : ChatMessage }.
Record ChatCompletion : Type := { choices : list Choice }.

Record TgFile : Type := { tg_file_id : string; tg_file_path : string }.

Record InputTextMessageContent : Type := { message_text : string }.

Record InlineQueryResultArticle : Type := {
  id : string;
  title : string;
  input_message_content : InputTextMessageContent;
  description : string;
  thumb_url : string
}.

(** The calls the code of the bot makes to its logger and to its clients,
    in order, one event for each invocation of a method. *)
Inductive Event : Type :=
| LogInfo (line : string)
| ChatCompletionsCreate (model : string) (messages : list ChatMessage)
| TranscriptionCreate (model : string) (audio : string)
| ImageCreate (prompt : string) (n : nat) (size : string)
| SendMessage (chat : Z) (text : string)
| GetFile (file : string)
| DownloadToDrive (file : TgFile) (path : string)
| InlineAnswer (results : list InlineQueryResultArticle).

(** The external services. Each answer may depend on everything that
    happened before the call. *)
Record Env : Type := {
  openai_chat_completions_create :
    list Event -> string -> list ChatMessage -> Result ChatCompletion;
  openai_transcription_create :
    list Event -> string -> string -> Result (gmap string string);
  openai_image_create :
    list Event -> string -> nat -> string -> Result (gmap string (list (gmap string string)));
  telegram_send_message : list Event -> Z -> string -> Result unit;
  telegram_get_file : list Event -> string -> Result TgFile;
  telegram_download : list Event -> TgFile -> Result string;
  telegram_inline_answer : list Event -> list InlineQueryResultArticle -> Result unit;
  pydub_ogg_to_mp3 : string -> Result string
}.

(** ** Objects of the program *)

(** [Catifier]: the fields set by [__init__]. The client is represented
    by the key it was built with. *)
Record Catifier : Type := {
  config : gmap string string;
  client_api_key : string;
  model : string;
  cat_config : ChatMessage
}.

Record CatBot : Type := {
  bot_config : gmap string string;
  catifier : Catifier
}.

(** Incoming update, with the fields the handlers read. [text] is set on
    every update that [run] routes to a handler reading it (text messages
    and commands). [username] is optional on Telegram; [voice] is absent
    on an audio message, which [run] routes to the voice handler too. *)
Record User : Type := { username : option string }.
Record Voice : Type := { file_id : string }.
Record Message : Type := { from_user : User; text : string; voice : option Voice }.
Record Chat : Type := { chat_id : Z }.
Record InlineQuery : Type := { query : string }.
Record Update : Type := {
  message : Message;
  effective_chat : Chat;
  inline_query : InlineQuery
}.

(** ** The world and the monad of handlers *)

Record World : Type := {
  self : CatBot;
  fs : gmap string string;
  trace : list Event
}.

Definition M (A : Type) : Type := World -> Result A * World.

Definition ret {A} (a : A) : M A := fun w => (Ok a, w).
Definition raise {A} (e : Exn) : M A := fun w => (Raise e, w).
Definition bind {A B} (c : M A) (k : A -> M B) : M B :=
  fun w =>
    match c w with
    | (Ok a, w') => k a w'
    | (Raise e, w') => (Raise e, w')
    end.

#[global] Instance M_ret : MRet M := @ret.
#[global] Instance M_bind : MBind M := fun A B k c => bind c k.

Definition emit (ev : Event) (w : World) : World :=
  {| self := self w; fs := fs w; trace := trace w ++ [ev] |}.

Definition set_fs (f : gmap string string) (w : World) : World :=
  {| self := self w; fs := f; trace := trace w |}.

(** An external call: the invocation is recorded, then the client answers
    from the history before the call. A client that cannot carry the call
    out (a missing attribute, a network failure) answers with a raise. *)
Definition call {A} (ev : Event) (answer : list Event -> Result A) : M A :=
  fun w => (answer (trace w), emit ev w).

Definition log_info (line : string) : M unit :=
  fun w => (Ok tt, emit (LogInfo line) w).

(** [l[i]] *)
Definition index {A} (l : list A) (i : nat) : M A :=
  match l !! i with
  | Some x => ret x
  | None => raise IndexError
  end.

(** [d[key]] *)
Definition getitem {A} (d : gmap string A) (key : string) : M A :=
  match d !! key with
  | Some x => ret x
  | None => raise (KeyError key)
  end.

Definition get_self : M CatBot := fun w => (Ok (self w), w).

(** Writing [data] to the file [path], created or replaced. *)
Definition write_file (path data : string) : M unit :=
  fun w => (Ok tt, set_fs (<[path := data]> (fs w)) w).

(** ** catbot/ai.py *)
Module Ai.

(** The system message set by [Catifier.__init__]. *)
Definition persona : ChatMessage :=
  {| role := "system";
     content := "You mimick a cat and try to rephrase everything using cat-related analogies and puns" |}.

(** [Catifier.__init__]: a missing key of [config] raises [KeyError].
    Building the client from the key is taken to succeed. *)
Definition init (cfg : gmap string string) : Result Catifier :=
  match cfg !! "OPENAI_API_KEY" with
  | None => Raise (KeyError "OPENAI_API_KEY")
  | Some key =>
      match cfg !! "GPT_MODEL" with
      | None => Raise (KeyError "GPT_MODEL")
      | Some m =>
          Ok {| config := cfg; client_api_key := key; model := m; cat_config := persona |}
      end
  end.

(** The text kept by the first lines of [catify]: the second piece of
    [message.split(' ', 1)], or the empty string when there is one piece. *)
Definition stripped (message : string) : string :=
  match PyStr.split " " 1 message with
  | _ :: rest :: _ => rest
  | _ => ""
  end.

Definition instruction : ChatMessage :=
  {| role := "user"; content := "Please turn the following text into a cat text." |}.

Definition user (message : string) : ChatMessage :=
  {| role := "user"; content := message |}.

Section Methods.
Variable env : Env.

Definition chat_completions_create (mdl : string) (messages : list ChatMessage) : M ChatCompletion :=
  call (ChatCompletionsCreate mdl messages)
       (fun h => openai_chat_completions_create env h mdl messages).

Definition transcription_create (mdl audio : string) : M (gmap string string) :=
  call (TranscriptionCreate mdl audio)
       (fun h => openai_transcription_create env h mdl audio).

Definition image_create (prompt : string) (n : nat) (size : string)
  : M (gmap string (list (gmap string string))) :=
  call (ImageCreate prompt n size) (fun h => openai_image_create env h prompt n size).

(** [Catifier.catify] *)
Definition catify (message : string) : M string :=
  log_info ("catify was called with " +:+ message);;
  let message_parts := PyStr.split " " 1 message in
  message ← (if (1 <? length message_parts)%nat
             then index message_parts 1
             else ret "");
  this ← get_self;
  completion ← chat_completions_create (model (catifier this))
    [ cat_config (catifier this); instruction; user message ];
  choice ← index (choices completion) 0;
  let answer := content (choice_message choice) in
  log_info ("catify is returning " +:+ answer);;
  ret answer.

(** [Catifier.reply] *)
Definition reply (message : string) : M string :=
  log_info ("reply was called with " +:+ message);;
  this ← get_self;
  completion ← chat_completions_create (model (catifier this))
    [ cat_config (catifier this); user message ];
  choice ← index (choices completion) 0;
  let answer := content (choice_message choice) in
  log_info ("reply is returning " +:+ answer);;
  ret answer.

(** [Catifier.transcribe]; [audio_file] is the content of the open file. *)
Definition transcribe (audio_file : string) : M string :=
  response ← transcription_create "whisper-1" audio_file;
  transcript ← getitem response "text";
  cat_transcript ← catify transcript;
  ret cat_transcript.

(** [Catifier.generate_image] *)
Definition generate_image (prompt size : string) : M string :=
  log_info ("Generate image was called with prompt=" +:+ PyStr.repr prompt);;
  response ← image_create prompt 1 size;
  data ← getitem response "data";
  first ← index data 0;
  image_url ← getitem first "url";
  log_info ("Generate image URL: " +:+ image_url);;
  ret image_url.

End Methods.
End Ai.

(** ** catbot/bot.py *)
Module Bot.

(** [CatBot.__init__] *)
Definition init (cfg : gmap string string) (c : Catifier) : CatBot :=
  {| bot_config := cfg; catifier := c |}.

(** The pattern of the mention gate, [@(?:CatGPT|Jinxthecatbot)\b]. *)
Definition mention_pattern : Re.regex :=
  Re.Seq (Re.Chr "@")
    (Re.Seq (Re.Alt (Re.lit "CatGPT") (Re.lit "Jinxthecatbot")) Re.WordBoundary).

Definition thumb : string :=
  "https://user-images.githubusercontent.com/13839523/227260331-764d699a-e99f-4920-9b03-6b2bae6e0fda.png".

Section Handlers.
Variable env : Env.

(** [context.bot.send_message(chat_id=..., text=...)] *)
Definition send_message (chat : Z) (txt : string) : M unit :=
  call (SendMessage chat txt) (fun h => telegram_send_message env h chat txt).

Definition get_file (fid : string) : M TgFile :=
  call (GetFile fid) (fun h => telegram_get_file env h fid).

(** [file.download_to_drive(path)]: the downloaded content is written to
    [path]; nothing is written when the download raises. *)
Definition download_to_drive (file : TgFile) (path : string) : M unit :=
  data ← call (DownloadToDrive file path) (fun h => telegram_download env h file);
  write_file path data.

(** [open(path, "rb")], as the content of the file. *)
Definition open_rb (path : string) : M string :=
  fun w =>
    match fs w !! path with
    | Some data => (Ok data, w)
    | None => (Raise (FileNotFoundError path), w)
    end.

(** [AudioSegment.from_ogg(src).export(dst, format="mp3")] *)
Definition ogg_to_mp3 (src dst : string) : M unit :=
  ogg ← open_rb src;
  mp3 ← (fun w => (pydub_ogg_to_mp3 env ogg, w)) : M string;
  write_file dst mp3.

(** [Path(path).unlink(missing_ok=...)] *)
Definition unlink (path : string) (missing_ok : bool) : M unit :=
  fun w =>
    match fs w !! path with
    | Some _ => (Ok tt, set_fs (delete path (fs w)) w)
    | None => if missing_ok then (Ok tt, w) else (Raise (FileNotFoundError path), w)
    end.

Definition inline_answer (results : list InlineQueryResultArticle) : M unit :=
  call (InlineAnswer results) (fun h => telegram_inline_answer env h results).

(** The decorator [check_authorized_user]: [inner] logs the user name and
    calls the decorated method. *)
Definition check_authorized_user (func : Update -> M unit) : Update -> M unit :=
  fun update =>
    let user_name := username (from_user (message update)) in
    log_info ("Authorized access from user: " +:+ PyStr.format_opt user_name +:+ ")");;
    func update.

(** [CatBot.help] *)
Definition help (update : Update) : M unit :=
  send_message (chat_id (effective_chat update)) "Help me!".

(** [CatBot.start] *)
Definition start (update : Update) : M unit :=
  send_message (chat_id (effective_chat update))
    "Hello there, I'm a cool cat AI assistant, here to help you out! I'm not lion when I say that I'm ready to pounce on any task you may have for me!".

(** Body of [CatBot.reply], under the decorator. *)
Definition reply_body (update : Update) : M unit :=
  let message_text := text (message update) in
  if negb (Re.search true mention_pattern message_text) then ret tt
  else
    response ← Ai.reply env message_text;
    send_message (chat_id (effective_chat update)) response.

Definition reply : Update -> M unit := check_authorized_user reply_body.

(** Body of [CatBot.catify], under the decorator. *)
Definition catify_body (update : Update) : M unit :=
  let message_text := text (message update) in
  response ← Ai.catify env message_text;
  send_message (chat_id (effective_chat update)) response.

Definition catify : Update -> M unit := check_authorized_user catify_body.

(** Body of [CatBot.voice_handler], under the decorator. *)
Definition voice_handler_body (update : Update) : M unit :=
  v ← match voice (message update) with
      | Some v => ret v
      | None => raise (AttributeError "file_id")
      end;
  let file_id := file_id v in
  let file_ogg := file_id +:+ ".ogg" in
  let file_mp3 := file_id +:+ ".mp3" in
  file ← get_file file_id;
  download_to_drive file file_ogg;;
  ogg_to_mp3 file_ogg file_mp3;;
  audio_file ← open_rb file_mp3;
  message ← Ai.transcribe env audio_file;
  send_message (chat_id (effective_chat update)) message;;
  unlink file_ogg true;;
  unlink file_mp3 true.

Definition voice_handler : Update -> M unit := check_authorized_user voice_handler_body.

(** [CatBot.inline_query] *)
Definition inline_query (update : Update) : M unit :=
  let query := query (inline_query update) in
  if String.eqb query "" then ret tt
  else
    let results :=
      [ {| id := query;
           title := "Ask CatGPT";
           input_message_content := {| message_text := query |};
           description := query;
           thumb_url := thumb |} ] in
    inline_answer results.

(** [CatBot.generate_image]: not decorated. *)
Definition generate_image (update : Update) : M unit :=
  let IMAGE_SIZE := "512x512" in
  let prompt := text (message update) in
  image_url ← Ai.generate_image env prompt IMAGE_SIZE;
  send_message (chat_id (effective_chat update)) ("Look at this image: " +:+ image_url).

(** The handlers registered by [CatBot.run]. *)
Inductive Handler : Type :=
| OnStart | OnInlineQuery | OnTextMessage | OnCatify | OnImage | OnVoice | OnHelp.

Definition handle (h : Handler) : Update -> M unit :=
  match h with
  | OnStart => start
  | OnInlineQuery => inline_query
  | OnTextMessage => reply
  | OnCatify => catify
  | OnImage => generate_image
  | OnVoice => voice_handler
  | OnHelp => help
  end.

End Handlers.
End Bot.

(** ** Observations on a run *)

(** The events a computation adds to the trace of [w]. *)
Definition new_events {A} (c : M A) (w : World) : list Event :=
  drop (length (trace w)) (trace (c w).2).

(** The message lists of the completion requests among [evs], in order. *)
Definition completion_requests (evs : list Event) : list (list ChatMessage) :=
  omap (fun ev => match ev with
                  | ChatCompletionsCreate _ msgs => Some msgs
                  | _ => None
                  end) evs.

(** The line logged by [check_authorized_user] for the update [u]. *)
Definition auth_line (u : Update) : string :=
  "Authorized access from user: "
    +:+ PyStr.format_opt (username (from_user (message u))) +:+ ")".

(** The world holds a [Catifier] built by [Catifier.__init__]. *)
Definition constructed (w : World) : Prop :=
  exists cfg, Ai.init cfg = Ok (catifier (self w)).

(** The persona comes first in every completion request. *)
Definition persona_first (p : ChatMessage) (ev : Event) : Prop :=
  match ev with
  | ChatCompletionsCreate _ msgs => msgs !! 0%nat = Some p
  | _ => True
  end.

(** A computation leaves the objects alone, only adds events, and puts
    the system message of the [Catifier] it started with first in every
    completion request it issues. *)
Definition keeps {A} (c : M A) : Prop :=
  forall w,
    self (c w).2 = self w /\
    exists evs, trace (c w).2 = trace w ++ evs /\
                Forall (persona_first (cat_config (catifier (self w)))) evs.

(** Calls of the operations of the [Catifier], and runs of several of
    them one after the other on the same object; a call that raises does
    not stop the next one. *)
Inductive Op : Type :=
| OpReply (message : string)
| OpCatify (message : string)
| OpTranscribe (audio_file : string)
| OpGenerateImage (prompt size : string).

Definition run_op (env : Env) (op : Op) : M string :=
  match op with
  | OpReply m => Ai.reply env m
  | OpCatify m => Ai.catify env m
  | OpTranscribe a => Ai.transcribe env a
  | OpGenerateImage p s => Ai.generate_image env p s
  end.

Fixpoint run_ops (env : Env) (ops : list Op) (w : World) : World :=
  match ops with
  | [] => w
  | op :: ops' => run_ops env ops' (run_op env op w).2
  end.

(** The same for updates dispatched to the handlers of the bot. *)
Fixpoint run_updates (env : Env) (us : list (Bot.Handler * Update)) (w : World) : World :=
  match us with
  | [] => w
  | (h, u) :: us' => run_updates env us' (Bot.handle env h u w).2
  end.

(** The kinds of events, to count the calls made to each service. *)
Inductive Kind : Type :=
| KLog | KChat | KTranscription | KImage | KSend | KGetFile | KDownload | KInlineAnswer.

#[global] Instance Kind_eq_dec : EqDecision Kind.
Proof. solve_decision. Defined.

Definition kind_of (ev : Event) : Kind :=
  match ev with
  | LogInfo _ => KLog
  | ChatCompletionsCreate _ _ => KChat
  | TranscriptionCreate _ _ => KTranscription
  | ImageCreate _ _ _ => KImage
  | SendMessage _ _ => KSend
  | GetFile _ => KGetFile
  | DownloadToDrive _ _ => KDownload
  | InlineAnswer _ => KInlineAnswer
  end.

(** How many events of [evs] are of kind [kd]. *)
Definition count_kind (kd : Kind) (evs : list Event) : nat :=
  length (filter (fun ev => kind_of ev = kd) evs).

(** A computation only adds events, at most [n] of them of kind [kd]. *)
Definition bounded (kd : Kind) (n : nat) {A} (c : M A) : Prop :=
  forall w, exists evs, trace (c w).2 = trace w ++ evs /\ count_kind kd evs <= n.

(** A computation changes no file outside [paths]. *)
Definition touches_only (paths : list string) {A} (c : M A) : Prop :=
  forall w path, path ∉ paths -> fs (c w).2 !! path = fs w !! path.

(** ** The wording of the specification, for comparison with the code *)
Module Spec.
Local Open Scope N_scope.

(** [p] is what follows the first space of [m], and the empty string
    when [m] has no space. *)
Definition after_first_space (m p : string) : Prop :=
  (PyStr.contains " " m = false /\ p = "") \/
  (exists a b, m = a +:+ String " " b /\ PyStr.contains " " a = false /\ p = b).

(** White space, as [str.isspace]. *)
Definition isspace (a : ascii) : bool :=
  let n := N_of_ascii a in
  ((9 <=? n) && (n <=? 13)) || ((28 <=? n) && (n <=? 32)) || (n =? 133) || (n =? 160).

Fixpoint lstrip (s : string) : string :=
  match s with
  | EmptyString => ""
  | String a s' => if isspace a then lstrip s' else s
  end.

Fixpoint drop_token (s : string) : string :=
  match s with
  | EmptyString => ""
  | String a s' => if isspace a then s else drop_token s'
  end.

(** The raw text with the leading command token and its trailing white
    space removed. *)
Definition strip_command_token (s : string) : string := lstrip (drop_token s).

Fixpoint has_space (s : string) : bool :=
  match s with
  | EmptyString => false
  | String a s' => isspace a || has_space s'
  end.

Fixpoint lower_str (s : string) : string :=
  match s with
  | EmptyString => ""
  | String a s' => String (Re.lower a) (lower_str s')
  end.

(** The text holds an at sign followed by one of the two handles of the
    bot, in any case, and the handle is not followed by a word character. *)
Definition mentions_bot (t : string) : Prop :=
  exists pre h post,
    t = pre +:+ String "@" (h +:+ post) /\
    (lower_str h = "catgpt" \/ lower_str h = "jinxthecatbot") /\
    Re.is_word_at (Re.head post) = false.

End Spec.

(** ** Concrete services and updates, used to run the model *)
Module Sample.

Definition cfg : gmap string string :=
  {[ "OPENAI_API_KEY" := "sk-test"; "GPT_MODEL" := "gpt-4o-mini"; "BOT_TOKEN" := "123:abc" ]}.

Definition cat : Catifier :=
  {| config := cfg; client_api_key := "sk-test"; model := "gpt-4o-mini";
     cat_config := Ai.persona |}.

Definition world : World :=
  {| self := Bot.init cfg cat; fs := ∅; trace := [] |}.

Definition meow : ChatCompletion :=
  {| choices := [ {| choice_message := {| role := "assistant"; content := "Meow" |} |} ] |}.

(** Every service answers; the transcript of any audio is [transcript]. *)
Definition env_ok (transcript : string) : Env :=
  {| openai_chat_completions_create := fun _ _ _ => Ok meow;
     openai_transcription_create := fun _ _ _ => Ok {[ "text" := transcript ]};
     openai_image_create := fun _ _ _ _ => Ok {[ "data" := [ {[ "url" := "http://img/1.png" ]} ] ]};
     telegram_send_message := fun _ _ _ => Ok tt;
     telegram_get_file := fun _ f => Ok {| tg_file_id := f; tg_file_path := "voice/" +:+ f |};
     telegram_download := fun _ _ => Ok "OggS";
     telegram_inline_answer := fun _ _ => Ok tt;
     pydub_ogg_to_mp3 := fun _ => Ok "ID3" |}.

(** The same, with the transcription service down. *)
Definition env_stt_down : Env :=
  {| openai_chat_completions_create := fun _ _ _ => Ok meow;
     openai_transcription_create := fun _ _ _ => Raise (ServiceError "transcription");
     openai_image_create := fun _ _ _ _ => Ok {[ "data" := [ {[ "url" := "http://img/1.png" ]} ] ]};
     telegram_send_message := fun _ _ _ => Ok tt;
     telegram_get_file := fun _ f => Ok {| tg_file_id := f; tg_file_path := "voice/" +:+ f |};
     telegram_download := fun _ _ => Ok "OggS";
     telegram_inline_answer := fun _ _ => Ok tt;
     pydub_ogg_to_mp3 := fun _ => Ok "ID3" |}.

Definition update (txt : string) (v : option Voice) (q : string) : Update :=
  {| message := {| from_user := {| username := Some "alice" |}; text := txt; voice := v |};
     effective_chat := {| chat_id := 42 |};
     inline_query := {| query := q |} |}.

Definition text_update (txt : string) : Update := update txt None "".
Definition voice_update : Update := update "" (Some {| file_id := "v1" |}) "".
Definition inline_update (q : string) : Update := update "" None q.

End Sample.

(** * Properties *)

(** ** Strings *)

#[local] Arguments String.append !s1 s2 : simpl nomatch.

Lemma append_empty_r (s : string) : s +:+ "" = s.
Proof. induction s as [|a s IH]; simpl; [reflexivity | now rewrite IH]. Qed.

Lemma append_assoc (a b c : string) : (a +:+ b) +:+ c = a +:+ (b +:+ c).
Proof. induction a as [|x a IH]; simpl; [reflexivity | now rewrite IH]. Qed.

Lemma split_aux_zero (sep : ascii) (cur s : string) :
  PyStr.split_aux sep 0 cur s = [cur +:+ s].
Proof. destruct s; simpl; [now rewrite append_empty_r | reflexivity]. Qed.

Lemma split_aux_no_sep (sep : ascii) (n : nat) (s cur : string) :
  PyStr.contains sep s = false -> PyStr.split_aux sep n cur s = [cur +:+ s].
Proof.
  revert cur. induction s as [|a s IH]; intros cur H; simpl in *.
  - now rewrite append_empty_r.
  - apply orb_false_iff in H as [Ha Hs]. destruct n as [|n]; [reflexivity|].
    rewrite Ha, IH by assumption. now rewrite append_assoc.
Qed.

Lemma split_aux_first_sep (sep : ascii) (a b cur : string) :
  PyStr.contains sep a = false ->
  PyStr.split_aux sep 1 cur (a +:+ String sep b) = [cur +:+ a; b].
Proof.
  revert cur. induction a as [|x a IH]; intros cur H; simpl in *.
  - rewrite Ascii.eqb_refl, split_aux_zero, append_empty_r. reflexivity.
  - apply orb_false_iff in H as [Hx Ha]. rewrite Hx, IH by assumption.
    now rewrite append_assoc.
Qed.

(** A string with a [c] splits at its first [c]. *)
Lemma contains_first (c : ascii) (s : string) :
  PyStr.contains c s = true ->
  exists a b, s = a +:+ String c b /\ PyStr.contains c a = false.
Proof.
  induction s as [|x s IH]; simpl; intros H; [discriminate|].
  destruct (Ascii.eqb x c) eqn:E.
  - apply Ascii.eqb_eq in E as ->. now exists "", s.
  - destruct (IH H) as (a & b & -> & Ha). exists (String x a), b. simpl.
    now rewrite E, Ha.
Qed.

Lemma stripped_no_space (m : string) :
  PyStr.contains " " m = false -> Ai.stripped m = "".
Proof.
  intros H. unfold Ai.stripped, PyStr.split. now rewrite split_aux_no_sep.
Qed.

Lemma stripped_first_space (a b : string) :
  PyStr.contains " " a = false -> Ai.stripped (a +:+ String " " b) = b.
Proof.
  intros H. unfold Ai.stripped, PyStr.split. now rewrite split_aux_first_sep.
Qed.

(** What [catify] keeps of its argument is what follows the first space. *)
Lemma stripped_after_first_space (m : string) :
  Spec.after_first_space m (Ai.stripped m).
Proof.
  destruct (PyStr.contains " " m) eqn:E.
  - right. destruct (contains_first _ _ E) as (a & b & -> & Ha).
    exists a, b. now rewrite stripped_first_space.
  - left. now rewrite stripped_no_space.
Qed.

Lemma after_first_space_unique (m p q : string) :
  Spec.after_first_space m p -> Spec.after_first_space m q -> p = q.
Proof.
  intros Hp Hq.
  assert (E : forall r, Spec.after_first_space m r -> r = Ai.stripped m).
  { intros r [[Hn ->] | (a & b & -> & Ha & ->)].
    - now rewrite stripped_no_space.
    - now rewrite stripped_first_space. }
  now rewrite (E p Hp), (E q Hq).
Qed.

(** The two branches on [len(message_parts)] compute [stripped]. *)
Lemma strip_step (m : string) :
  (if (1 <? length (PyStr.split " " 1 m))%nat
   then index (PyStr.split " " 1 m) 1
   else ret "") = ret (Ai.stripped m).
Proof.
  unfold Ai.stripped. destruct (PyStr.split " " 1 m) as [|x [|y l]]; reflexivity.
Qed.

(** ** The monad *)

Lemma bind_ret_r {A} (c : M A) (w : World) : (c ≫= ret) w = c w.
Proof.
  unfold mbind, M_bind, bind, ret. destruct (c w) as [[a|e] w']; reflexivity.
Qed.

Lemma new_events_app {A} (c : M A) (w : World) (evs : list Event) :
  trace (c w).2 = trace w ++ evs -> new_events c w = evs.
Proof. intros H. unfold new_events. rewrite H. apply drop_app_length. Qed.

Lemma constructed_persona (w : World) :
  constructed w -> cat_config (catifier (self w)) = Ai.persona.
Proof.
  intros [cfg H]. unfold Ai.init in H.
  destruct (cfg !! "OPENAI_API_KEY"); [|discriminate].
  destruct (cfg !! "GPT_MODEL"); [|discriminate].
  injection H as <-. reflexivity.
Qed.

(** ** The operations of the [Catifier], step by step *)

Lemma catify_run (env : Env) (t : string) (w : World) :
  Ai.catify env t w =
    let w1 := emit (LogInfo ("catify was called with " +:+ t)) w in
    let cat := catifier (self w) in
    let msgs := [cat_config cat; Ai.instruction; Ai.user (Ai.stripped t)] in
    let w2 := emit (ChatCompletionsCreate (model cat) msgs) w1 in
    match openai_chat_completions_create env (trace w1) (model cat) msgs with
    | Raise e => (Raise e, w2)
    | Ok completion =>
        match choices completion with
        | [] => (Raise IndexError, w2)
        | ch :: _ =>
            let answer := content (choice_message ch) in
            (Ok answer, emit (LogInfo ("catify is returning " +:+ answer)) w2)
        end
    end.
Proof.
  unfold Ai.catify. rewrite strip_step.
  unfold mbind, M_bind, bind, log_info, ret, get_self, Ai.chat_completions_create, call; cbn.
  destruct (openai_chat_completions_create env _ _ _) as [completion|e]; [|reflexivity].
  destruct (choices completion) as [|ch rest]; reflexivity.
Qed.

Lemma reply_run (env : Env) (t : string) (w : World) :
  Ai.reply env t w =
    let w1 := emit (LogInfo ("reply was called with " +:+ t)) w in
    let cat := catifier (self w) in
    let msgs := [cat_config cat; Ai.user t] in
    let w2 := emit (ChatCompletionsCreate (model cat) msgs) w1 in
    match openai_chat_completions_create env (trace w1) (model cat) msgs with
    | Raise e => (Raise e, w2)
    | Ok completion =>
        match choices completion with
        | [] => (Raise IndexError, w2)
        | ch :: _ =>
            let answer := content (choice_message ch) in
            (Ok answer, emit (LogInfo ("reply is returning " +:+ answer)) w2)
        end
    end.
Proof.
  unfold Ai.reply.
  unfold mbind, M_bind, bind, log_info, ret, get_self, Ai.chat_completions_create, call; cbn.
  destruct (openai_chat_completions_create env _ _ _) as [completion|e]; [|reflexivity].
  destruct (choices completion) as [|ch rest]; reflexivity.
Qed.

Lemma transcribe_run (env : Env) (audio : string) (w : World) :
  Ai.transcribe env audio w =
    let w1 := emit (TranscriptionCreate "whisper-1" audio) w in
    match openai_transcription_create env (trace w) "whisper-1" audio with
    | Raise e => (Raise e, w1)
    | Ok response =>
        match response !! "text" with
        | None => (Raise (KeyError "text"), w1)
        | Some transcript => Ai.catify env transcript w1
        end
    end.
Proof.
  unfold Ai.transcribe, Ai.transcription_create, call, getitem.
  unfold mbind at 1 2; unfold M_bind, bind at 1 2; cbn.
  destruct (openai_transcription_create env _ _ _) as [response|e]; [|reflexivity].
  destruct (response !! "text") as [transcript|]; [|reflexivity].
  apply (bind_ret_r (Ai.catify env transcript)).
Qed.

Lemma catify_events (env : Env) (t : string) (w : World) :
  exists evs,
    trace (Ai.catify env t w).2 = trace w ++ evs /\
    completion_requests evs =
      [[cat_config (catifier (self w)); Ai.instruction; Ai.user (Ai.stripped t)]].
Proof.
  rewrite catify_run; cbn zeta.
  destruct (openai_chat_completions_create env _ _ _) as [completion|e];
    [destruct (choices completion) as [|ch rest]|];
    cbn; rewrite <- ?app_assoc; eexists; (split; [reflexivity|]); reflexivity.
Qed.

Lemma catify_requests (env : Env) (t : string) (w : World) :
  completion_requests (new_events (Ai.catify env t) w) =
    [[cat_config (catifier (self w)); Ai.instruction; Ai.user (Ai.stripped t)]].
Proof.
  destruct (catify_events env t w) as (evs & Htr & Hreq).
  now rewrite (new_events_app _ _ _ Htr).
Qed.

Lemma transcribe_requests (env : Env) (audio : string) (w : World)
    (response : gmap string string) (transcript : string) :
  openai_transcription_create env (trace w) "whisper-1" audio = Ok response ->
  response !! "text" = Some transcript ->
  completion_requests (new_events (Ai.transcribe env audio) w) =
    [[cat_config (catifier (self w)); Ai.instruction; Ai.user (Ai.stripped transcript)]].
Proof.
  intros Hr Ht.
  pose proof (transcribe_run env audio w) as Hrun; cbn zeta in Hrun.
  rewrite Hr, Ht in Hrun.
  destruct (catify_events env transcript (emit (TranscriptionCreate "whisper-1" audio) w))
    as (evs & Htr & Hreq).
  rewrite <- Hrun in Htr. cbn [trace emit] in Htr. rewrite <- app_assoc in Htr.
  rewrite (new_events_app _ _ _ Htr). exact Hreq.
Qed.

(** When the transcription raises, [transcribe] raises the same exception
    and no completion request is made. *)
Lemma transcribe_failure (env : Env) (audio : string) (w : World) (e : Exn) :
  openai_transcription_create env (trace w) "whisper-1" audio = Raise e ->
  Ai.transcribe env audio w = (Raise e, emit (TranscriptionCreate "whisper-1" audio) w) /\
  completion_requests (new_events (Ai.transcribe env audio) w) = [].
Proof.
  intros Hr.
  pose proof (transcribe_run env audio w) as Hrun; cbn zeta in Hrun.
  rewrite Hr in Hrun. split; [exact Hrun|].
  erewrite new_events_app; [|rewrite Hrun; reflexivity]. reflexivity.
Qed.

Lemma reply_requests (env : Env) (t : string) (w : World) :
  completion_requests (new_events (Ai.reply env t) w) =
    [[cat_config (catifier (self w)); Ai.user t]].
Proof.
  pose proof (reply_run env t w) as H; cbn zeta in H.
  destruct (openai_chat_completions_create env _ _ _) as [completion|e];
    [destruct (choices completion) as [|ch rest]|];
    (erewrite new_events_app; [|rewrite H; cbn; rewrite <- ?app_assoc; reflexivity]);
    reflexivity.
Qed.

(** ** The Persona Proxy *)

(** C7. For every text [t], [reply(t)] issues exactly one completion
    request; its message list is the persona system message followed by a
    user message with content [t]; and when the service answers with at
    least one choice, [reply] returns the content of the first choice as
    it is. *)
Theorem reply_request (env : Env) (t : string) (w : World) :
  constructed w ->
  completion_requests (new_events (Ai.reply env t) w)
    = [[Ai.persona; {| role := "user"; content := t |}]] /\
  forall completion ch rest,
    openai_chat_completions_create env
      (trace w ++ [LogInfo ("reply was called with " +:+ t)])
      (model (catifier (self w)))
      [Ai.persona; {| role := "user"; content := t |}] = Ok completion ->
    choices completion = ch :: rest ->
    (Ai.reply env t w).1 = Ok (content (choice_message ch)).
Proof.
  intros Hc. pose proof (constructed_persona w Hc) as Hp. split.
  - rewrite reply_requests, Hp. reflexivity.
  - intros completion ch rest Hans Hch.
    rewrite reply_run; cbn zeta. rewrite Hp. unfold Ai.user. cbn [trace emit].
    rewrite Hans, Hch. reflexivity.
Qed.

Lemma reply_request_witness :
  constructed Sample.world /\
  completion_requests (new_events (Ai.reply (Sample.env_ok "") "hi @CatGPT") Sample.world)
    = [[Ai.persona; {| role := "user"; content := "hi @CatGPT" |}]] /\
  (Ai.reply (Sample.env_ok "") "hi @CatGPT" Sample.world).1 = Ok "Meow".
Proof.
  assert (Hc : constructed Sample.world) by (exists Sample.cfg; vm_compute; reflexivity).
  split; [exact Hc|].
  destruct (reply_request (Sample.env_ok "") "hi @CatGPT" Sample.world Hc) as [H1 H2].
  split; [exact H1|].
  exact (H2 Sample.meow _ [] eq_refl eq_refl).
Defined.




(** C10. For every string [m], the user message [catify] sends as
    payload is what follows the first space of [m], and the empty string
    when [m] has no space, whatever [m] starts with. The same holds for
    the transcript that [transcribe] pipes through [catify]: the request
    carries the transcript without its first word, and nothing of a
    transcript of one word. *)
Theorem catify_discards_first_word (env : Env) (m : string) (w : World) :
  constructed w ->
  (exists p,
     completion_requests (new_events (Ai.catify env m) w)
       = [[Ai.persona; Ai.instruction; {| role := "user"; content := p |}]] /\
     Spec.after_first_space m p) /\
  (forall audio response transcript,
     openai_transcription_create env (trace w) "whisper-1" audio = Ok response ->
     response !! "text" = Some transcript ->
     exists p,
       completion_requests (new_events (Ai.transcribe env audio) w)
         = [[Ai.persona; Ai.instruction; {| role := "user"; content := p |}]] /\
       Spec.after_first_space transcript p).
Proof.
  intros Hc. pose proof (constructed_persona w Hc) as Hp. split.
  - exists (Ai.stripped m). split; [|apply stripped_after_first_space].
    rewrite catify_requests, Hp. reflexivity.
  - intros audio response transcript Hr Ht.
    exists (Ai.stripped transcript). split; [|apply stripped_after_first_space].
    rewrite (transcribe_requests env audio w response transcript Hr Ht), Hp. reflexivity.
Qed.

Lemma catify_discards_first_word_witness :
  constructed Sample.world /\
  (exists p,
     completion_requests
       (new_events (Ai.catify (Sample.env_ok "Hello") "good morning kitty") Sample.world)
       = [[Ai.persona; Ai.instruction; {| role := "user"; content := p |}]] /\
     Spec.after_first_space "good morning kitty" p) /\
  (exists p,
     completion_requests
       (new_events (Ai.transcribe (Sample.env_ok "Hello") "ID3") Sample.world)
       = [[Ai.persona; Ai.instruction; {| role := "user"; content := p |}]] /\
     Spec.after_first_space "Hello" p).
Proof.
  assert (Hc : constructed Sample.world) by (exists Sample.cfg; vm_compute; reflexivity).
  split; [exact Hc|].
  destruct (catify_discards_first_word (Sample.env_ok "Hello") "good morning kitty"
              Sample.world Hc) as [H1 H2].
  split; [exact H1|].
  exact (H2 "ID3" {[ "text" := "Hello" ]} "Hello" eq_refl eq_refl).
Defined.

(** C4, at an audio whose transcript is hello world: the request that
    [transcribe] makes through [catify] carries world, not the full
    transcript. *)
Theorem transcribe_loses_first_word :
  completion_requests
    (new_events (Ai.transcribe (Sample.env_ok "hello world") "ID3") Sample.world)
  = [[Ai.persona; Ai.instruction; {| role := "user"; content := "world" |}]].
Proof. vm_compute. reflexivity. Qed.

(** ** The command router *)

Lemma completion_requests_app (l k : list Event) :
  completion_requests (l ++ k) = completion_requests l ++ completion_requests k.
Proof. apply omap_app. Qed.

(** The decorated method logs, then runs its body. *)
Lemma check_authorized_user_run (func : Update -> M unit) (u : Update) (w : World) :
  Bot.check_authorized_user func u w = func u (emit (LogInfo (auth_line u)) w).
Proof. reflexivity. Qed.

Lemma bot_catify_run (env : Env) (u : Update) (w : World) :
  Bot.catify env u w =
    let w1 := emit (LogInfo (auth_line u)) w in
    match Ai.catify env (text (message u)) w1 with
    | (Ok response, w2) =>
        (telegram_send_message env (trace w2) (chat_id (effective_chat u)) response,
         emit (SendMessage (chat_id (effective_chat u)) response) w2)
    | (Raise e, w2) => (Raise e, w2)
    end.
Proof. reflexivity. Qed.

Lemma bot_catify_requests (env : Env) (u : Update) (w : World) :
  completion_requests (new_events (Bot.catify env u) w) =
    [[cat_config (catifier (self w)); Ai.instruction;
      Ai.user (Ai.stripped (text (message u)))]].
Proof.
  pose proof (bot_catify_run env u w) as Hrun; cbn zeta in Hrun.
  destruct (catify_events env (text (message u)) (emit (LogInfo (auth_line u)) w))
    as (evs & Htr & Hreq).
  destruct (Ai.catify env (text (message u)) (emit (LogInfo (auth_line u)) w))
    as [[response|e] w2]; cbn [snd] in Htr.
  - erewrite new_events_app;
      [|rewrite Hrun; cbn [snd trace emit]; rewrite Htr; cbn [trace emit];
        rewrite <- !app_assoc; reflexivity].
    rewrite !completion_requests_app, Hreq. reflexivity.
  - erewrite new_events_app;
      [|rewrite Hrun; cbn [snd]; rewrite Htr; cbn [trace emit];
        rewrite <- !app_assoc; reflexivity].
    rewrite !completion_requests_app, Hreq. reflexivity.
Qed.

Lemma has_space_contains (a : string) :
  Spec.has_space a = false -> PyStr.contains " " a = false.
Proof.
  induction a as [|x a IH]; simpl; [reflexivity|]. intros H.
  apply orb_false_iff in H as [Hx Ha]. rewrite (IH Ha), orb_false_r.
  destruct (Ascii.eqb x " ") eqn:E; [|reflexivity].
  apply Ascii.eqb_eq in E as ->. discriminate Hx.
Qed.

Lemma drop_token_app (a s : string) :
  Spec.has_space a = false -> Spec.drop_token (a +:+ s) = Spec.drop_token s.
Proof.
  induction a as [|x a IH]; simpl; [reflexivity|]. intros H.
  apply orb_false_iff in H as [Hx Ha]. now rewrite Hx, IH.
Qed.

Lemma strip_one_space (a b : string) :
  Spec.has_space a = false ->
  (forall c b', b = String c b' -> Spec.isspace c = false) ->
  Spec.strip_command_token (a +:+ String " " b) = b.
Proof.
  intros Ha Hb. unfold Spec.strip_command_token. rewrite drop_token_app by assumption.
  cbn. destruct b as [|c b']; [reflexivity|]. simpl. now rewrite (Hb c b' eq_refl).
Qed.

Lemma strip_no_space (t : string) :
  Spec.has_space t = false -> Spec.strip_command_token t = "".
Proof.
  intros H. unfold Spec.strip_command_token.
  rewrite <- (append_empty_r t), drop_token_app by assumption. reflexivity.
Qed.

(** With two spaces after the command token, the second one stays in
    the payload. *)
Lemma catify_command_keeps_white_space :
  completion_requests
    (new_events (Bot.catify (Sample.env_ok "") (Sample.text_update "/catify  hello world"))
       Sample.world)
  <> [[Ai.persona; Ai.instruction;
       {| role := "user";
          content := Spec.strip_command_token "/catify  hello world" |}]].
Proof. vm_compute. discriminate. Qed.

(** The payload of the catify command on every update: it is what
    follows the first space of the raw text, and it is the text without
    its command token and trailing white space when the token is followed
    by a single space and then by no white space, or by no white space at
    all. *)
Theorem catify_command_payload (env : Env) (u : Update) (w : World) :
  constructed w ->
  Bot.catify env u w =
    (response ← Ai.catify env (text (message u));
     Bot.send_message env (chat_id (effective_chat u)) response)
      (emit (LogInfo (auth_line u)) w) /\
  exists p,
    completion_requests (new_events (Bot.catify env u) w)
      = [[Ai.persona; Ai.instruction; {| role := "user"; content := p |}]] /\
    Spec.after_first_space (text (message u)) p /\
    (forall a b, text (message u) = a +:+ " " +:+ b ->
       Spec.has_space a = false ->
       (forall c b', b = String c b' -> Spec.isspace c = false) ->
       p = Spec.strip_command_token (text (message u))) /\
    (Spec.has_space (text (message u)) = false ->
       p = Spec.strip_command_token (text (message u))) /\
    (text (message u) = "/catify hello world" -> p = "hello world") /\
    (text (message u) = "/catify" -> p = "").
Proof.
  intros Hc. split; [reflexivity|]. exists (Ai.stripped (text (message u))).
  split; [|split; [|split; [|split; [|split]]]].
  - rewrite bot_catify_requests, (constructed_persona w Hc). reflexivity.
  - apply stripped_after_first_space.
  - intros a b -> Ha Hb. change (" " +:+ b) with (String " " b).
    rewrite stripped_first_space by now apply has_space_contains.
    symmetry. now apply strip_one_space.
  - intros H. rewrite stripped_no_space by now apply has_space_contains.
    symmetry. now apply strip_no_space.
  - intros ->. reflexivity.
  - intros ->. reflexivity.
Qed.

Lemma catify_command_payload_witness :
  constructed Sample.world /\
  exists p,
    completion_requests
      (new_events (Bot.catify (Sample.env_ok "") (Sample.text_update "/catify hello world"))
         Sample.world)
      = [[Ai.persona; Ai.instruction; {| role := "user"; content := p |}]] /\
    p = "hello world" /\
    p = Spec.strip_command_token "/catify hello world".
Proof.
  assert (Hc : constructed Sample.world) by (exists Sample.cfg; vm_compute; reflexivity).
  split; [exact Hc|].
  destruct (catify_command_payload (Sample.env_ok "")
              (Sample.text_update "/catify hello world") Sample.world Hc)
    as (_ & p & H1 & _ & H3 & _ & H5 & _).
  exists p. split; [exact H1|]. split; [exact (H5 eq_refl)|].
  apply (H3 "/catify" "hello world" eq_refl eq_refl).
  intros c b' E. injection E as <- _. reflexivity.
Defined.

(** C3. The claim has the payload be the raw text without its command
    token and the white space after it. At the command followed by a line
    break and then hello world, the payload is world: the first word of
    the user is lost with the token. At the command followed by two spaces
    the payload keeps the second space. *)
Theorem catify_command_loses_text :
  let broken := "/catify" +:+ String (ascii_of_N 10) "hello world" in
  Spec.strip_command_token broken = "hello world" /\
  completion_requests
    (new_events (Bot.catify (Sample.env_ok "") (Sample.text_update broken)) Sample.world)
  = [[Ai.persona; Ai.instruction; {| role := "user"; content := "world" |}]] /\
  Spec.strip_command_token "/catify  hello world" = "hello world" /\
  completion_requests
    (new_events (Bot.catify (Sample.env_ok "") (Sample.text_update "/catify  hello world"))
       Sample.world)
  = [[Ai.persona; Ai.instruction; {| role := "user"; content := " hello world" |}]].
Proof. vm_compute. repeat split. Qed.

(** C8. For every inline query: when the query string is empty the
    handler returns without answering; otherwise it answers once, with
    exactly one result whose identifier is the query text, whose title is
    the fixed label Ask CatGPT, whose body is the query text as it is, and
    whose thumbnail is the fixed URL. *)
Theorem inline_query_answer (env : Env) (u : Update) (w : World) :
  (query (inline_query u) = "" -> Bot.inline_query env u w = (Ok tt, w)) /\
  (query (inline_query u) <> "" ->
     exists art,
       new_events (Bot.inline_query env u) w = [InlineAnswer [art]] /\
       (Bot.inline_query env u w).1 = telegram_inline_answer env (trace w) [art] /\
       id art = query (inline_query u) /\
       title art = "Ask CatGPT" /\
       message_text (input_message_content art) = query (inline_query u) /\
       thumb_url art = Bot.thumb).
Proof.
  unfold Bot.inline_query. split.
  - intros ->. reflexivity.
  - intros Hq. apply String.eqb_neq in Hq. rewrite Hq. cbn.
    eexists. split; [apply new_events_app; reflexivity|]. repeat split.
Qed.

Lemma inline_query_answer_witness :
  Bot.inline_query (Sample.env_ok "") (Sample.inline_update "") Sample.world
    = (Ok tt, Sample.world) /\
  exists art,
    new_events (Bot.inline_query (Sample.env_ok "") (Sample.inline_update "purr")) Sample.world
      = [InlineAnswer [art]] /\
    id art = "purr" /\ message_text (input_message_content art) = "purr".
Proof.
  split.
  - apply (inline_query_answer (Sample.env_ok "") (Sample.inline_update "") Sample.world).
    reflexivity.
  - destruct (inline_query_answer (Sample.env_ok "") (Sample.inline_update "purr") Sample.world)
      as [_ H].
    destruct H as (art & H1 & _ & H3 & _ & H5 & _); [discriminate|].
    exists art. split; [exact H1|]. split; [exact H3 | exact H5].
Defined.

(** The events of the image command: none of them is the line of the gate. *)
Lemma generate_image_events (env : Env) (u : Update) (w : World) :
  exists evs,
    trace (Bot.generate_image env u w).2 = trace w ++ evs /\
    Forall (fun ev => forall x, ev <> LogInfo ("Authorized access from user: " +:+ x)) evs /\
    completion_requests evs = [].
Proof.
  unfold Bot.generate_image, Ai.generate_image, Ai.image_create, Bot.send_message,
    getitem, index, call, log_info.
  unfold mbind, M_bind, bind, ret, raise; cbn.
  destruct (openai_image_create env _ _ _ _) as [response|e]; cbn.
  2:{ rewrite <- app_assoc. eexists. split; [reflexivity|].
      split; [|reflexivity]. repeat constructor; intros x; discriminate. }
  destruct (response !! "data") as [data|]; cbn.
  2:{ rewrite <- app_assoc. eexists. split; [reflexivity|].
      split; [|reflexivity]. repeat constructor; intros x; discriminate. }
  destruct (data !! 0%nat) as [first|]; cbn.
  2:{ rewrite <- app_assoc. eexists. split; [reflexivity|].
      split; [|reflexivity]. repeat constructor; intros x; discriminate. }
  destruct (first !! "url") as [image_url|]; cbn.
  2:{ rewrite <- app_assoc. eexists. split; [reflexivity|].
      split; [|reflexivity]. repeat constructor; intros x; discriminate. }
  rewrite <- !app_assoc. eexists. split; [reflexivity|].
  split; [|reflexivity]. repeat constructor; intros x; discriminate.
Qed.

(** C5. The text, catify and voice handlers run under the gate: the user
    name is logged first and the body of the handler then runs on every
    update. The image command does not: handling it logs no line of the
    gate. *)
Theorem authorization_gate (env : Env) (u : Update) (w : World) :
  Bot.handle env Bot.OnTextMessage u w
    = Bot.reply_body env u (emit (LogInfo (auth_line u)) w) /\
  Bot.handle env Bot.OnCatify u w
    = Bot.catify_body env u (emit (LogInfo (auth_line u)) w) /\
  Bot.handle env Bot.OnVoice u w
    = Bot.voice_handler_body env u (emit (LogInfo (auth_line u)) w) /\
  Forall (fun ev => ev <> LogInfo (auth_line u))
    (new_events (Bot.handle env Bot.OnImage u) w).
Proof.
  repeat split; try reflexivity.
  destruct (generate_image_events env u w) as (evs & Htr & Hev & _).
  cbn [Bot.handle]. rewrite (new_events_app _ _ _ Htr).
  eapply Forall_impl; [exact Hev|]. intros ev H. apply H.
Qed.

(** ** The temporary files of the voice handler *)

Lemma bind_ok_inv {A B} (c : M A) (k : A -> M B) (w w' : World) (b : B) :
  (c ≫= k) w = (Ok b, w') ->
  exists a w1, c w = (Ok a, w1) /\ k a w1 = (Ok b, w').
Proof.
  unfold mbind, M_bind, bind. destruct (c w) as [[a|e] w1]; intros H.
  - now exists a, w1.
  - discriminate H.
Qed.

(** Deleting with [missing_ok] never raises and leaves no file at [path]. *)
Lemma unlink_missing_ok (path : string) (w : World) :
  (Bot.unlink path true w).1 = Ok tt /\
  fs (Bot.unlink path true w).2 = delete path (fs w) /\
  (fs w !! path = None -> Bot.unlink path true w = (Ok tt, w)).
Proof.
  unfold Bot.unlink. destruct (fs w !! path) as [data|] eqn:E; cbn.
  - repeat split. discriminate.
  - repeat split. symmetry. now apply delete_id.
Qed.

(** C1. At a voice update whose transcription raises: the handler
    raises too, and the downloaded file and its transcoded copy are both
    still on disk, where the claim has them absent on every exit path. The
    two deletions are the last statements of the handler, outside any
    [finally]. *)
Lemma voice_files_left_on_failure :
  let r := Bot.voice_handler Sample.env_stt_down Sample.voice_update Sample.world in
  r.1 = Raise (ServiceError "transcription") /\
  fs r.2 !! "v1.ogg" = Some "OggS" /\
  fs r.2 !! "v1.mp3" = Some "ID3" /\
  ~ (fs r.2 !! "v1.ogg" = None /\ fs r.2 !! "v1.mp3" = None).
Proof.
  vm_compute. repeat split; try reflexivity. intros [H _]. discriminate H.
Qed.

(** ** The persona is fixed *)

Create HintDb keeps.

Lemma keeps_pure {A} (r : Result A) : keeps (fun w => (r, w)).
Proof. intros w. split; [reflexivity|]. exists []. now rewrite app_nil_r. Qed.

Lemma keeps_ret {A} (a : A) : keeps (ret a).
Proof. apply keeps_pure. Qed.

Lemma keeps_raise {A} (e : Exn) : keeps (raise (A := A) e).
Proof. apply keeps_pure. Qed.

Lemma keeps_bind {A B} (c : M A) (k : A -> M B) :
  keeps c -> (forall a, keeps (k a)) -> keeps (c ≫= k).
Proof.
  intros Hc Hk w. unfold mbind, M_bind, bind.
  destruct (Hc w) as (Hs & evs & Htr & Hev).
  destruct (c w) as [[a|e] w1]; cbn [snd] in *.
  - destruct (Hk a w1) as (Hs' & evs' & Htr' & Hev').
    split; [congruence|]. exists (evs ++ evs'). split.
    + rewrite Htr', Htr. now rewrite app_assoc.
    + apply Forall_app. split; [exact Hev|]. now rewrite <- Hs.
  - split; [exact Hs|]. now exists evs.
Qed.

(** A call that is not a completion request. *)
Lemma keeps_call {A} (ev : Event) (answer : list Event -> Result A) :
  (forall p, persona_first p ev) -> keeps (call ev answer).
Proof.
  intros H w. split; [reflexivity|]. exists [ev]. split; [reflexivity|].
  constructor; [apply H | constructor].
Qed.

Lemma keeps_log_info (line : string) : keeps (log_info line).
Proof.
  intros w. split; [reflexivity|]. exists [LogInfo line]. split; [reflexivity|].
  repeat constructor.
Qed.

Lemma keeps_index {A} (l : list A) (i : nat) : keeps (index l i).
Proof. unfold index. destruct (l !! i); apply keeps_pure. Qed.

Lemma keeps_getitem {A} (d : gmap string A) (key : string) : keeps (getitem d key).
Proof. unfold getitem. destruct (d !! key); apply keeps_pure. Qed.

Lemma keeps_write_file (path data : string) : keeps (write_file path data).
Proof. intros w. split; [reflexivity|]. exists []. cbn. now rewrite app_nil_r. Qed.

Lemma keeps_open_rb (path : string) : keeps (Bot.open_rb path).
Proof.
  intros w. unfold Bot.open_rb. destruct (fs w !! path); (split; [reflexivity|]);
    exists []; cbn; now rewrite app_nil_r.
Qed.

Lemma keeps_unlink (path : string) (missing_ok : bool) : keeps (Bot.unlink path missing_ok).
Proof.
  intros w. unfold Bot.unlink. destruct (fs w !! path); [|destruct missing_ok];
    (split; [reflexivity|]); exists []; cbn; now rewrite app_nil_r.
Qed.

Lemma keeps_catify (env : Env) (t : string) : keeps (Ai.catify env t).
Proof.
  intros w. rewrite catify_run; cbn zeta.
  destruct (openai_chat_completions_create env _ _ _) as [completion|e];
    [destruct (choices completion) as [|ch rest]|];
    (split; [reflexivity|]); cbn; rewrite <- ?app_assoc; eexists;
    (split; [reflexivity|]); repeat constructor.
Qed.

Lemma keeps_reply (env : Env) (t : string) : keeps (Ai.reply env t).
Proof.
  intros w. rewrite reply_run; cbn zeta.
  destruct (openai_chat_completions_create env _ _ _) as [completion|e];
    [destruct (choices completion) as [|ch rest]|];
    (split; [reflexivity|]); cbn; rewrite <- ?app_assoc; eexists;
    (split; [reflexivity|]); repeat constructor.
Qed.

#[local] Hint Resolve keeps_pure keeps_ret keeps_raise keeps_log_info keeps_index
  keeps_getitem keeps_write_file keeps_open_rb keeps_unlink keeps_catify keeps_reply : keeps.

Ltac keeps_steps :=
  repeat first
    [ solve [auto with keeps]
    | apply keeps_call; intros ?; exact I
    | apply keeps_bind; [|intros ?] ].

Lemma keeps_transcribe (env : Env) (audio : string) : keeps (Ai.transcribe env audio).
Proof. unfold Ai.transcribe, Ai.transcription_create. keeps_steps. Qed.

Lemma keeps_generate_image (env : Env) (prompt size : string) :
  keeps (Ai.generate_image env prompt size).
Proof. unfold Ai.generate_image, Ai.image_create. keeps_steps. Qed.

Lemma keeps_run_op (env : Env) (op : Op) : keeps (run_op env op).
Proof.
  destruct op; cbn [run_op];
    auto using keeps_transcribe, keeps_generate_image with keeps.
Qed.

Lemma keeps_handle (env : Env) (h : Bot.Handler) (u : Update) : keeps (Bot.handle env h u).
Proof.
  destruct h; cbn [Bot.handle].
  - unfold Bot.start, Bot.send_message. keeps_steps.
  - unfold Bot.inline_query, Bot.inline_answer.
    destruct (String.eqb _ _); keeps_steps.
  - unfold Bot.reply, Bot.check_authorized_user, Bot.reply_body, Bot.send_message.
    apply keeps_bind; [auto with keeps|intros _].
    destruct (negb _); keeps_steps.
  - unfold Bot.catify, Bot.check_authorized_user, Bot.catify_body, Bot.send_message.
    keeps_steps.
  - unfold Bot.generate_image, Bot.send_message.
    apply keeps_bind; [apply keeps_generate_image|intros ?]. keeps_steps.
  - unfold Bot.voice_handler, Bot.check_authorized_user, Bot.voice_handler_body,
      Bot.send_message, Bot.get_file, Bot.download_to_drive, Bot.ogg_to_mp3.
    apply keeps_bind; [auto with keeps|intros _].
    apply keeps_bind; [destruct (voice (message u)); auto with keeps|intros ?].
    apply keeps_bind; [keeps_steps|intros ?].
    apply keeps_bind; [keeps_steps|intros ?].
    apply keeps_bind; [keeps_steps|intros ?].
    apply keeps_bind; [keeps_steps|intros ?].
    apply keeps_bind; [apply keeps_transcribe|intros ?].
    keeps_steps.
  - unfold Bot.help, Bot.send_message. keeps_steps.
Qed.

(** Runs of several calls keep the object and only add good requests. *)
Lemma run_ops_keeps (env : Env) (ops : list Op) (w : World) :
  self (run_ops env ops w) = self w /\
  exists evs, trace (run_ops env ops w) = trace w ++ evs /\
              Forall (persona_first (cat_config (catifier (self w)))) evs.
Proof.
  revert w. induction ops as [|op ops IH]; intros w; cbn [run_ops].
  - split; [reflexivity|]. exists []. now rewrite app_nil_r.
  - destruct (keeps_run_op env op w) as (Hs & evs & Htr & Hev).
    destruct (IH (run_op env op w).2) as (Hs' & evs' & Htr' & Hev').
    split; [congruence|]. exists (evs ++ evs'). split.
    + rewrite Htr', Htr. now rewrite app_assoc.
    + apply Forall_app. split; [exact Hev|]. now rewrite <- Hs.
Qed.

Lemma run_updates_keeps (env : Env) (us : list (Bot.Handler * Update)) (w : World) :
  self (run_updates env us w) = self w /\
  exists evs, trace (run_updates env us w) = trace w ++ evs /\
              Forall (persona_first (cat_config (catifier (self w)))) evs.
Proof.
  revert w. induction us as [|[h u] us IH]; intros w; cbn [run_updates].
  - split; [reflexivity|]. exists []. now rewrite app_nil_r.
  - destruct (keeps_handle env h u w) as (Hs & evs & Htr & Hev).
    destruct (IH (Bot.handle env h u w).2) as (Hs' & evs' & Htr' & Hev').
    split; [congruence|]. exists (evs ++ evs'). split.
    + rewrite Htr', Htr. now rewrite app_assoc.
    + apply Forall_app. split; [exact Hev|]. now rewrite <- Hs.
Qed.

(** C9. Once the [Catifier] is constructed, whatever operations of the
    Persona Proxy are called on it (reply, catify, transcribe and through
    it catify, generate_image), and whatever updates the bot handles, the
    system message of the object is still the persona fixed at
    construction, and every completion request issued has that persona as
    the first entry of its message list. *)
Theorem persona_invariant (env : Env) (w : World) :
  constructed w ->
  (forall ops,
     cat_config (catifier (self (run_ops env ops w))) = Ai.persona /\
     exists evs, trace (run_ops env ops w) = trace w ++ evs /\
                 Forall (persona_first Ai.persona) evs) /\
  (forall us,
     cat_config (catifier (self (run_updates env us w))) = Ai.persona /\
     exists evs, trace (run_updates env us w) = trace w ++ evs /\
                 Forall (persona_first Ai.persona) evs).
Proof.
  intros Hc. pose proof (constructed_persona w Hc) as Hp. split.
  - intros ops. destruct (run_ops_keeps env ops w) as (Hs & evs & Htr & Hev).
    rewrite Hs. split; [exact Hp|]. exists evs. now rewrite <- Hp.
  - intros us. destruct (run_updates_keeps env us w) as (Hs & evs & Htr & Hev).
    rewrite Hs. split; [exact Hp|]. exists evs. now rewrite <- Hp.
Qed.

Lemma persona_invariant_witness :
  constructed Sample.world /\
  cat_config (catifier (self
    (run_ops (Sample.env_ok "hello world")
       [OpCatify "/catify hi"; OpTranscribe "ID3"; OpReply "hi"; OpGenerateImage "cat" "512x512"]
       Sample.world))) = Ai.persona /\
  cat_config (catifier (self
    (run_updates Sample.env_stt_down
       [(Bot.OnVoice, Sample.voice_update); (Bot.OnCatify, Sample.text_update "/catify hi")]
       Sample.world))) = Ai.persona.
Proof.
  assert (Hc : constructed Sample.world) by (exists Sample.cfg; vm_compute; reflexivity).
  split; [exact Hc|]. split.
  - apply (persona_invariant (Sample.env_ok "hello world") Sample.world Hc).
  - apply (persona_invariant Sample.env_stt_down Sample.world Hc).
Defined.

(** ** The mention gate *)

Lemma lower_is_word (a : ascii) : Re.is_word (Re.lower a) = Re.is_word a.
Proof. destruct a as [[] [] [] [] [] [] [] []]; reflexivity. Qed.

Lemma lower_at_sign (a : ascii) : Ascii.eqb (Re.lower a) "@" = Ascii.eqb a "@".
Proof. destruct a as [[] [] [] [] [] [] [] []]; reflexivity. Qed.

Lemma lower_str_empty (h : string) : Spec.lower_str h = "" -> h = "".
Proof. destruct h; [reflexivity | discriminate]. Qed.

Lemma last_char_nonempty (h : string) (p q : option ascii) :
  h <> "" -> Re.last_char p h = Re.last_char q h.
Proof. destruct h; [congruence | reflexivity]. Qed.

(** After reading a text that is, in lower case, a literal ending with a
    word character, the previous character is a word character. *)
Lemma last_char_is_word (h : string) :
  forall prev l,
    Spec.lower_str h = l -> l <> "" ->
    Re.is_word_at (Re.last_char None l) = true ->
    Re.is_word_at (Re.last_char prev h) = true.
Proof.
  induction h as [|a h IH]; intros prev l Hl Hne Hw; cbn in Hl; subst l.
  - congruence.
  - cbn [Re.last_char] in *. destruct h as [|b h].
    + cbn in *. now rewrite lower_is_word in Hw.
    + apply (IH _ _ eq_refl); [discriminate|].
      rewrite (last_char_nonempty _ None (Some (Re.lower a))); [exact Hw | discriminate].
Qed.

(** Matching a literal without regard to case: the text read is the
    literal up to case. *)
Lemma rmatch_lit (l : string) :
  forall prev s k,
    Re.rmatch true (Re.lit l) prev s k = true <->
    exists h post,
      s = h +:+ post /\ Spec.lower_str h = Spec.lower_str l /\
      k (Re.last_char prev h) post = true.
Proof.
  induction l as [|c l IH]; intros prev s k; cbn [Re.lit Re.rmatch].
  - split.
    + intros H. now exists "", s.
    + intros (h & post & -> & Hl & Hk). apply lower_str_empty in Hl. now subst h.
  - destruct s as [|a s].
    + split; [discriminate|]. intros (h & post & Hs & Hl & _).
      destruct h; cbn in *; discriminate.
    + unfold Re.chr_matches. rewrite andb_true_iff, IH, Ascii.eqb_eq. split.
      * intros (Ha & h & post & -> & Hl & Hk). exists (String a h), post.
        cbn. now rewrite Ha, Hl.
      * intros (h & post & Hs & Hl & Hk). destruct h as [|b h]; [discriminate|].
        cbn in Hs, Hl, Hk. injection Hs as <- ->. injection Hl as Ha Hl.
        split; [exact Ha|]. now exists h, post.
Qed.

(** [re.search] finds a match at some position of the text. *)
Lemma search_from_spec (ic : bool) (r : Re.regex) (s : string) :
  forall prev,
    Re.search_from ic r prev s = true <->
    exists pre rest,
      s = pre +:+ rest /\
      Re.rmatch ic r (Re.last_char prev pre) rest (fun _ _ => true) = true.
Proof.
  induction s as [|a s IH]; intros prev; cbn [Re.search_from]; rewrite orb_true_iff.
  - split.
    + intros [H|H]; [|discriminate]. now exists "", "".
    + intros (pre & rest & Hs & H). left.
      destruct pre; [|discriminate]. cbn in Hs. now subst rest.
  - rewrite IH. split.
    + intros [H|(pre & rest & -> & H)].
      * now exists "", (String a s).
      * now exists (String a pre), rest.
    + intros (pre & rest & Hs & H). destruct pre as [|b pre].
      * left. cbn in Hs. now subst rest.
      * right. cbn in Hs. injection Hs as <- ->. now exists pre, rest.
Qed.

(** The pattern of the gate at one position of the text. *)
Lemma mention_match (prev : option ascii) (s : string) :
  Re.rmatch true Bot.mention_pattern prev s (fun _ _ => true) = true <->
  exists h post,
    s = String "@" (h +:+ post) /\
    (Spec.lower_str h = "catgpt" \/ Spec.lower_str h = "jinxthecatbot") /\
    Re.is_word_at (Re.head post) = false.
Proof.
  unfold Bot.mention_pattern. cbn [Re.rmatch]. destruct s as [|a s].
  - split; [discriminate|]. intros (h & post & Hs & _). discriminate Hs.
  - unfold Re.chr_matches. change (Re.lower "@") with "@"%char.
    rewrite lower_at_sign, andb_true_iff, orb_true_iff, !rmatch_lit, Ascii.eqb_eq.
    change (Spec.lower_str "CatGPT") with "catgpt".
    change (Spec.lower_str "Jinxthecatbot") with "jinxthecatbot".
    assert (Hb : forall h post l,
               Spec.lower_str h = l -> l <> "" ->
               Re.is_word_at (Re.last_char None l) = true ->
               (xorb (Re.is_word_at (Re.last_char (Some a) h)) (Re.is_word_at (Re.head post))
                  && true = true
                <-> Re.is_word_at (Re.head post) = false)).
    { intros h post l Hl Hne Hw.
      rewrite (last_char_is_word h (Some a) l Hl Hne Hw), andb_true_r.
      destruct (Re.is_word_at (Re.head post)); cbn; split; congruence. }
    split.
    + intros (-> & [(h & post & -> & Hl & Hk) | (h & post & -> & Hl & Hk)]);
        exists h, post; (split; [reflexivity|]); (split; [tauto|]);
        eapply Hb; try exact Hk; try exact Hl; try discriminate; reflexivity.
    + intros (h & post & Hs & Hl & Hw). injection Hs as -> ->.
      split; [reflexivity|].
      destruct Hl as [Hl|Hl]; [left|right]; exists h, post;
        (split; [reflexivity|]); (split; [exact Hl|]);
        eapply Hb; try exact Hw; try exact Hl; try discriminate; reflexivity.
Qed.

(** The search of the gate succeeds exactly on the texts that mention
    the bot. *)
Lemma mention_search (t : string) :
  Re.search true Bot.mention_pattern t = true <-> Spec.mentions_bot t.
Proof.
  unfold Re.search, Spec.mentions_bot. rewrite search_from_spec. split.
  - intros (pre & rest & -> & H). apply mention_match in H as (h & post & -> & Hl & Hw).
    now exists pre, h, post.
  - intros (pre & h & post & -> & Hl & Hw). exists pre, (String "@" (h +:+ post)).
    split; [reflexivity|]. apply mention_match. now exists h, post.
Qed.

Lemma reply_events (env : Env) (t : string) (w : World) :
  exists evs,
    trace (Ai.reply env t w).2 = trace w ++ evs /\
    completion_requests evs = [[cat_config (catifier (self w)); Ai.user t]] /\
    Forall (fun ev => forall chat txt, ev <> SendMessage chat txt) evs.
Proof.
  rewrite reply_run; cbn zeta.
  destruct (openai_chat_completions_create env _ _ _) as [completion|e];
    [destruct (choices completion) as [|ch rest]|];
    cbn; rewrite <- ?app_assoc; eexists; (split; [reflexivity|]);
    (split; [reflexivity|]); repeat constructor; discriminate.
Qed.

Lemma bot_reply_run (env : Env) (u : Update) (w : World) :
  Bot.reply env u w =
    let w1 := emit (LogInfo (auth_line u)) w in
    if Re.search true Bot.mention_pattern (text (message u))
    then (response ← Ai.reply env (text (message u));
          Bot.send_message env (chat_id (effective_chat u)) response) w1
    else (Ok tt, w1).
Proof.
  unfold Bot.reply. rewrite check_authorized_user_run. unfold Bot.reply_body.
  destruct (Re.search true Bot.mention_pattern (text (message u))); reflexivity.
Qed.

(** C6. For every non-command text update: when the text holds an at
    sign followed by one of the two handles of the bot, in any case and
    ending as a whole word, the handler forwards the full text to the
    reply operation of the Persona Proxy and sends the result back to the
    chat; otherwise it returns without error, having made no request and
    sent no message. The request to the proxy is made if and only if the
    text holds such a mention. *)
Theorem mention_gate (env : Env) (u : Update) (w : World) :
  (Spec.mentions_bot (text (message u)) ->
     Bot.reply env u w =
       (response ← Ai.reply env (text (message u));
        Bot.send_message env (chat_id (effective_chat u)) response)
         (emit (LogInfo (auth_line u)) w)) /\
  (~ Spec.mentions_bot (text (message u)) ->
     Bot.reply env u w = (Ok tt, emit (LogInfo (auth_line u)) w)) /\
  (Spec.mentions_bot (text (message u)) <->
     completion_requests (new_events (Bot.reply env u) w)
       = [[cat_config (catifier (self w)); {| role := "user"; content := text (message u) |}]]) /\
  (forall chat txt,
     SendMessage chat txt ∈ new_events (Bot.reply env u) w ->
     Spec.mentions_bot (text (message u)) /\
     chat = chat_id (effective_chat u) /\
     (Ai.reply env (text (message u)) (emit (LogInfo (auth_line u)) w)).1 = Ok txt).
Proof.
  pose proof (bot_reply_run env u w) as Hrun; cbn zeta in Hrun.
  pose proof (mention_search (text (message u))) as Hm.
  destruct (Re.search true Bot.mention_pattern (text (message u))) eqn:E.
  - assert (Hyes : Spec.mentions_bot (text (message u))) by now apply Hm.
    destruct (reply_events env (text (message u)) (emit (LogInfo (auth_line u)) w))
      as (evs & Htr & Hreq & Hnosend).
    assert (Hnot : forall chat txt, SendMessage chat txt ∉ evs).
    { intros chat txt Hin. rewrite Forall_forall in Hnosend.
      exact (Hnosend _ Hin chat txt eq_refl). }
    split; [intros _; exact Hrun|]. split; [intros Hno; contradiction|].
    unfold mbind, M_bind, bind, Bot.send_message, call in Hrun.
    destruct (Ai.reply env (text (message u)) (emit (LogInfo (auth_line u)) w))
      as [[response|e] w2]; cbn [snd fst] in *.
    + assert (Hev : new_events (Bot.reply env u) w
                    = [LogInfo (auth_line u)] ++ evs
                        ++ [SendMessage (chat_id (effective_chat u)) response]).
      { apply new_events_app. rewrite Hrun; cbn [snd trace emit].
        rewrite Htr; cbn [trace emit]. rewrite <- !app_assoc. reflexivity. }
      rewrite Hev. split.
      * split; [intros _|intros _; exact Hyes].
        rewrite !completion_requests_app, Hreq. reflexivity.
      * intros chat txt Hin. split; [exact Hyes|].
        apply elem_of_app in Hin as [Hin|Hin];
          [apply list_elem_of_singleton in Hin; discriminate|].
        apply elem_of_app in Hin as [Hin|Hin]; [now apply Hnot in Hin|].
        apply list_elem_of_singleton in Hin. injection Hin as -> ->. split; reflexivity.
    + assert (Hev : new_events (Bot.reply env u) w = [LogInfo (auth_line u)] ++ evs).
      { apply new_events_app. rewrite Hrun; cbn [snd].
        rewrite Htr; cbn [trace emit]. rewrite <- !app_assoc. reflexivity. }
      rewrite Hev. split.
      * split; [intros _|intros _; exact Hyes].
        rewrite !completion_requests_app, Hreq. reflexivity.
      * intros chat txt Hin.
        apply elem_of_app in Hin as [Hin|Hin];
          [apply list_elem_of_singleton in Hin; discriminate|].
        now apply Hnot in Hin.
  - assert (Hno : ~ Spec.mentions_bot (text (message u))).
    { intros H. apply Hm in H. discriminate H. }
    assert (Hev : new_events (Bot.reply env u) w = [LogInfo (auth_line u)]).
    { apply new_events_app. rewrite Hrun. reflexivity. }
    rewrite Hev.
    split; [intros H; contradiction|]. split; [intros _; exact Hrun|]. split.
    + split; [intros H; contradiction | discriminate].
    + intros chat txt Hin. apply list_elem_of_singleton in Hin. discriminate Hin.
Qed.

Lemma mention_gate_witness :
  Spec.mentions_bot "hey @Jinxthecatbot what's up" /\
  ~ Spec.mentions_bot "hey there" /\
  new_events (Bot.reply (Sample.env_ok "") (Sample.text_update "hey @Jinxthecatbot what's up"))
    Sample.world
  = [LogInfo "Authorized access from user: alice)";
     LogInfo "reply was called with hey @Jinxthecatbot what's up";
     ChatCompletionsCreate "gpt-4o-mini"
       [Ai.persona; {| role := "user"; content := "hey @Jinxthecatbot what's up" |}];
     LogInfo "reply is returning Meow";
     SendMessage 42 "Meow"] /\
  Bot.reply (Sample.env_ok "") (Sample.text_update "hey there") Sample.world
  = (Ok tt, emit (LogInfo "Authorized access from user: alice)") Sample.world).
Proof.
  assert (Hyes : Spec.mentions_bot "hey @Jinxthecatbot what's up").
  { exists "hey ", "Jinxthecatbot", " what's up". repeat split. right. reflexivity. }
  assert (Hno : ~ Spec.mentions_bot "hey there").
  { intros H. apply mention_search in H. vm_compute in H. discriminate H. }
  split; [exact Hyes|]. split; [exact Hno|]. split.
  - unfold new_events.
    destruct (mention_gate (Sample.env_ok "")
                (Sample.text_update "hey @Jinxthecatbot what's up") Sample.world)
      as (H1 & _). rewrite (H1 Hyes). vm_compute. reflexivity.
  - destruct (mention_gate (Sample.env_ok "") (Sample.text_update "hey there") Sample.world)
      as (_ & H2 & _). exact (H2 Hno).
Defined.

(** * Further properties of the code *)

(** ** Outcomes of the Persona Proxy *)

Lemma reply_outcome (env : Env) (t : string) (w : World) :
  let cat := catifier (self w) in
  let request := [cat_config cat; Ai.user t] in
  let answer :=
    openai_chat_completions_create env
      (trace w ++ [LogInfo ("reply was called with " +:+ t)]) (model cat) request in
  (forall a, (Ai.reply env t w).1 = Ok a <->
     exists completion ch rest,
       answer = Ok completion /\ choices completion = ch :: rest /\
       a = content (choice_message ch)) /\
  (forall e, (Ai.reply env t w).1 = Raise e ->
     (answer = Raise e \/
      (exists completion, answer = Ok completion /\ choices completion = [] /\
                          e = IndexError)) /\
     new_events (Ai.reply env t) w =
       [LogInfo ("reply was called with " +:+ t);
        ChatCompletionsCreate (model cat) request]).
Proof.
  cbn zeta.
  pose proof (reply_run env t w) as Hr; cbn zeta in Hr; cbn [trace emit] in Hr.
  destruct (openai_chat_completions_create env _ _ _) as [c|e0];
    [destruct (choices c) as [|ch0 rest0] eqn:Ec|].
  - split.
    + intros a. rewrite Hr. split; [discriminate|].
      intros (c' & ch & rest & H1 & H2 & _). injection H1 as <-. congruence.
    + intros e. rewrite Hr. intros H. injection H as <-. split; [right; eauto|].
      apply new_events_app. rewrite Hr. cbn. now rewrite <- app_assoc.
  - split.
    + intros a. rewrite Hr. cbn [fst]. split.
      * intros H. injection H as <-. now exists c, ch0, rest0.
      * intros (c' & ch & rest & H1 & H2 & ->). injection H1 as <-.
        rewrite Ec in H2. now injection H2 as <- _.
    + intros e. rewrite Hr. discriminate.
  - split.
    + intros a. rewrite Hr. split; [discriminate|].
      intros (c' & ch & rest & H1 & _). discriminate H1.
    + intros e. rewrite Hr. intros H. injection H as <-. split; [now left|].
      apply new_events_app. rewrite Hr. cbn. now rewrite <- app_assoc.
Qed.

Lemma catify_outcome (env : Env) (t : string) (w : World) :
  let cat := catifier (self w) in
  let request := [cat_config cat; Ai.instruction; Ai.user (Ai.stripped t)] in
  let answer :=
    openai_chat_completions_create env
      (trace w ++ [LogInfo ("catify was called with " +:+ t)]) (model cat) request in
  (forall a, (Ai.catify env t w).1 = Ok a <->
     exists completion ch rest,
       answer = Ok completion /\ choices completion = ch :: rest /\
       a = content (choice_message ch)) /\
  (forall e, (Ai.catify env t w).1 = Raise e ->
     (answer = Raise e \/
      (exists completion, answer = Ok completion /\ choices completion = [] /\
                          e = IndexError)) /\
     new_events (Ai.catify env t) w =
       [LogInfo ("catify was called with " +:+ t);
        ChatCompletionsCreate (model cat) request]).
Proof.
  cbn zeta.
  pose proof (catify_run env t w) as Hr; cbn zeta in Hr; cbn [trace emit] in Hr.
  destruct (openai_chat_completions_create env _ _ _) as [c|e0];
    [destruct (choices c) as [|ch0 rest0] eqn:Ec|].
  - split.
    + intros a. rewrite Hr. split; [discriminate|].
      intros (c' & ch & rest & H1 & H2 & _). injection H1 as <-. congruence.
    + intros e. rewrite Hr. intros H. injection H as <-. split; [right; eauto|].
      apply new_events_app. rewrite Hr. cbn. now rewrite <- app_assoc.
  - split.
    + intros a. rewrite Hr. cbn [fst]. split.
      * intros H. injection H as <-. now exists c, ch0, rest0.
      * intros (c' & ch & rest & H1 & H2 & ->). injection H1 as <-.
        rewrite Ec in H2. now injection H2 as <- _.
    + intros e. rewrite Hr. discriminate.
  - split.
    + intros a. rewrite Hr. split; [discriminate|].
      intros (c' & ch & rest & H1 & _). discriminate H1.
    + intros e. rewrite Hr. intros H. injection H as <-. split; [now left|].
      apply new_events_app. rewrite Hr. cbn. now rewrite <- app_assoc.
Qed.

(** X2. [reply] and [catify] return exactly when the completion service
    answers with at least one choice, and then return the content of the
    first choice; they raise what the service raises, and [IndexError] on
    an answer without choices. The line that logs the answer is written
    only on success: after a raise the new events are the line logging the
    call and the request. *)
Theorem completion_outcome (env : Env) (t : string) (w : World) :
  let cat := catifier (self w) in
  let request_reply := [cat_config cat; Ai.user t] in
  let request_catify := [cat_config cat; Ai.instruction; Ai.user (Ai.stripped t)] in
  let answer_reply :=
    openai_chat_completions_create env
      (trace w ++ [LogInfo ("reply was called with " +:+ t)]) (model cat) request_reply in
  let answer_catify :=
    openai_chat_completions_create env
      (trace w ++ [LogInfo ("catify was called with " +:+ t)]) (model cat) request_catify in
  (forall a, (Ai.reply env t w).1 = Ok a <->
     exists completion ch rest,
       answer_reply = Ok completion /\ choices completion = ch :: rest /\
       a = content (choice_message ch)) /\
  (forall a, (Ai.catify env t w).1 = Ok a <->
     exists completion ch rest,
       answer_catify = Ok completion /\ choices completion = ch :: rest /\
       a = content (choice_message ch)) /\
  (forall e, (Ai.reply env t w).1 = Raise e ->
     (answer_reply = Raise e \/
      (exists completion, answer_reply = Ok completion /\ choices completion = [] /\
                          e = IndexError)) /\
     new_events (Ai.reply env t) w =
       [LogInfo ("reply was called with " +:+ t);
        ChatCompletionsCreate (model cat) request_reply]) /\
  (forall e, (Ai.catify env t w).1 = Raise e ->
     (answer_catify = Raise e \/
      (exists completion, answer_catify = Ok completion /\ choices completion = [] /\
                          e = IndexError)) /\
     new_events (Ai.catify env t) w =
       [LogInfo ("catify was called with " +:+ t);
        ChatCompletionsCreate (model cat) request_catify]).
Proof.
  cbn zeta.
  destruct (reply_outcome env t w) as [R1 R2]. destruct (catify_outcome env t w) as [C1 C2].
  cbn zeta in R1, R2, C1, C2.
  split; [exact R1|]. split; [exact C1|]. split; [exact R2 | exact C2].
Qed.

Lemma completion_outcome_witness :
  (Ai.reply (Sample.env_ok "") "hi" Sample.world).1 = Ok "Meow" /\
  (Ai.catify (Sample.env_ok "") "/catify hi" Sample.world).1 = Ok "Meow".
Proof.
  destruct (completion_outcome (Sample.env_ok "") "hi" Sample.world) as (H1 & _).
  destruct (completion_outcome (Sample.env_ok "") "/catify hi" Sample.world) as (_ & H2 & _).
  split.
  - apply H1. exists Sample.meow. eexists. exists []. repeat split.
  - apply H2. exists Sample.meow. eexists. exists []. repeat split.
Defined.



(** ** Storage *)

Lemma touches_only_pure (paths : list string) {A} (r : Result A) :
  touches_only paths (fun w => (r, w)).
Proof. intros w path _. reflexivity. Qed.

Lemma touches_only_ret (paths : list string) {A} (a : A) : touches_only paths (ret a).
Proof. apply touches_only_pure. Qed.

Lemma touches_only_raise (paths : list string) {A} (e : Exn) :
  touches_only paths (raise (A := A) e).
Proof. apply touches_only_pure. Qed.

Lemma touches_only_bind (paths : list string) {A B} (c : M A) (k : A -> M B) :
  touches_only paths c -> (forall a, touches_only paths (k a)) ->
  touches_only paths (c ≫= k).
Proof.
  intros Hc Hk w path Hp. unfold mbind, M_bind, bind.
  specialize (Hc w path Hp). destruct (c w) as [[a|e] w1]; cbn [snd] in *.
  - now rewrite (Hk a w1 path Hp).
  - exact Hc.
Qed.

Lemma touches_only_bind_ret (paths : list string) {A B} (a : A) (k : A -> M B) :
  touches_only paths (k a) -> touches_only paths (ret a ≫= k).
Proof. intros H w path Hp. exact (H w path Hp). Qed.

Lemma touches_only_call (paths : list string) {A} (ev : Event)
    (answer : list Event -> Result A) :
  touches_only paths (call ev answer).
Proof. intros w path _. reflexivity. Qed.

Lemma touches_only_log_info (paths : list string) (line : string) :
  touches_only paths (log_info line).
Proof. intros w path _. reflexivity. Qed.

Lemma touches_only_index (paths : list string) {A} (l : list A) (i : nat) :
  touches_only paths (index l i).
Proof. unfold index. destruct (l !! i); apply touches_only_pure. Qed.

Lemma touches_only_getitem (paths : list string) {A} (d : gmap string A) (key : string) :
  touches_only paths (getitem d key).
Proof. unfold getitem. destruct (d !! key); apply touches_only_pure. Qed.

Lemma touches_only_get_self (paths : list string) : touches_only paths get_self.
Proof. intros w path _. reflexivity. Qed.

Lemma touches_only_open_rb (paths : list string) (p : string) :
  touches_only paths (Bot.open_rb p).
Proof. intros w path _. unfold Bot.open_rb. now destruct (fs w !! p). Qed.

Lemma touches_only_write_file (paths : list string) (p data : string) :
  p ∈ paths -> touches_only paths (write_file p data).
Proof.
  intros Hin w path Hp. cbn. apply lookup_insert_ne. intros ->. contradiction.
Qed.

Lemma touches_only_unlink (paths : list string) (p : string) (missing_ok : bool) :
  p ∈ paths -> touches_only paths (Bot.unlink p missing_ok).
Proof.
  intros Hin w path Hp. unfold Bot.unlink.
  destruct (fs w !! p); [|now destruct missing_ok].
  cbn. apply lookup_delete_ne. intros ->. contradiction.
Qed.

Create HintDb touches.

#[local] Hint Resolve touches_only_pure touches_only_ret touches_only_raise touches_only_call touches_only_log_info
  touches_only_index touches_only_getitem touches_only_get_self touches_only_open_rb
  : touches.

Ltac in_paths := solve [repeat constructor].

Ltac touches_steps :=
  repeat first
    [ solve [auto with touches]
    | apply touches_only_write_file; in_paths
    | apply touches_only_unlink; in_paths
    | apply touches_only_bind; [|intros ?] ].

Lemma touches_only_catify (paths : list string) (env : Env) (t : string) :
  touches_only paths (Ai.catify env t).
Proof.
  unfold Ai.catify, Ai.chat_completions_create. rewrite strip_step. touches_steps.
Qed.

Lemma touches_only_reply (paths : list string) (env : Env) (t : string) :
  touches_only paths (Ai.reply env t).
Proof. unfold Ai.reply, Ai.chat_completions_create. touches_steps. Qed.

Lemma touches_only_transcribe (paths : list string) (env : Env) (audio : string) :
  touches_only paths (Ai.transcribe env audio).
Proof.
  unfold Ai.transcribe, Ai.transcription_create.
  apply touches_only_bind; [auto with touches|intros ?].
  apply touches_only_bind; [auto with touches|intros ?].
  apply touches_only_bind; [apply touches_only_catify|intros ?].
  auto with touches.
Qed.

Lemma touches_only_generate_image (paths : list string) (env : Env) (prompt size : string) :
  touches_only paths (Ai.generate_image env prompt size).
Proof.
  unfold Ai.generate_image, Ai.image_create. touches_steps.
Qed.

Lemma touches_only_nothing {A} (c : M A) (w : World) :
  touches_only [] c -> fs (c w).2 = fs w.
Proof. intros H. apply map_eq. intros path. apply H. apply not_elem_of_nil. Qed.

Lemma touches_only_handle (paths : list string) (env : Env) (h : Bot.Handler) (u : Update) :
  h <> Bot.OnVoice -> touches_only paths (Bot.handle env h u).
Proof.
  intros Hh. destruct h; cbn [Bot.handle]; try congruence.
  - unfold Bot.start, Bot.send_message. touches_steps.
  - unfold Bot.inline_query, Bot.inline_answer. destruct (String.eqb _ _); touches_steps.
  - unfold Bot.reply, Bot.check_authorized_user, Bot.reply_body, Bot.send_message.
    apply touches_only_bind; [auto with touches|intros _].
    destruct (negb _); [auto with touches|].
    apply touches_only_bind; [apply touches_only_reply|intros ?]. auto with touches.
  - unfold Bot.catify, Bot.check_authorized_user, Bot.catify_body, Bot.send_message.
    apply touches_only_bind; [auto with touches|intros _].
    apply touches_only_bind; [apply touches_only_catify|intros ?]. auto with touches.
  - unfold Bot.generate_image, Bot.send_message.
    apply touches_only_bind; [apply touches_only_generate_image|intros ?].
    auto with touches.
  - unfold Bot.help, Bot.send_message. touches_steps.
Qed.

(** X6. No operation of the Persona Proxy and no handler other than the voice
    handler reads or changes the files: the storage after the call is the
    storage before it, on every outcome. *)
Theorem storage_untouched (env : Env) (w : World) :
  (forall op, fs (run_op env op w).2 = fs w) /\
  (forall h u, h <> Bot.OnVoice -> fs (Bot.handle env h u w).2 = fs w).
Proof.
  split.
  - intros op. apply touches_only_nothing.
    destruct op; cbn [run_op];
      auto using touches_only_reply, touches_only_catify, touches_only_transcribe,
        touches_only_generate_image.
  - intros h u Hh. apply touches_only_nothing. now apply touches_only_handle.
Qed.

Lemma storage_untouched_witness :
  fs (Bot.handle (Sample.env_ok "") Bot.OnCatify (Sample.text_update "/catify hi")
        Sample.world).2 = fs Sample.world.
Proof.
  apply (storage_untouched (Sample.env_ok "") Sample.world). discriminate.
Defined.

(** X7. The voice handler changes no file other than its two temporary files,
    named after the file id of the voice message with the suffixes .ogg
    and .mp3; this holds on every outcome. *)
Theorem voice_handler_frame (env : Env) (u : Update) (v : Voice) (w : World) (path : string) :
  voice (message u) = Some v ->
  path <> file_id v +:+ ".ogg" ->
  path <> file_id v +:+ ".mp3" ->
  fs (Bot.voice_handler env u w).2 !! path = fs w !! path.
Proof.
  intros Hv Hogg Hmp3.
  assert (H : touches_only [file_id v +:+ ".ogg"; file_id v +:+ ".mp3"]
                (Bot.voice_handler env u)).
  { unfold Bot.voice_handler, Bot.check_authorized_user, Bot.voice_handler_body,
      Bot.send_message, Bot.get_file, Bot.download_to_drive, Bot.ogg_to_mp3.
    rewrite Hv.
    apply touches_only_bind; [auto with touches|intros _].
    apply touches_only_bind_ret. cbn zeta.
    apply touches_only_bind; [auto with touches|intros ?].
    apply touches_only_bind; [touches_steps|intros ?].
    apply touches_only_bind; [touches_steps|intros ?].
    apply touches_only_bind; [auto with touches|intros ?].
    apply touches_only_bind; [apply touches_only_transcribe|intros ?].
    touches_steps. }
  apply H. intros Hin. apply elem_of_cons in Hin as [->|Hin]; [congruence|].
  apply elem_of_cons in Hin as [->|Hin]; [congruence|].
  now apply not_elem_of_nil in Hin.
Qed.

Lemma voice_handler_frame_witness :
  fs (Bot.voice_handler Sample.env_stt_down Sample.voice_update
        (set_fs {[ "notes.txt" := "keep" ]} Sample.world)).2 !! "notes.txt" = Some "keep".
Proof.
  rewrite (voice_handler_frame Sample.env_stt_down Sample.voice_update {| file_id := "v1" |}
             (set_fs {[ "notes.txt" := "keep" ]} Sample.world) "notes.txt" eq_refl);
    [reflexivity | discriminate | discriminate].
Defined.

(** ** The voice handler, step by step *)

Lemma unlink_true (path : string) (w : World) :
  Bot.unlink path true w = (Ok tt, set_fs (delete path (fs w)) w).
Proof.
  unfold Bot.unlink. destruct (fs w !! path) eqn:E; [reflexivity|].
  rewrite delete_id by exact E. destruct w; reflexivity.
Qed.

Lemma voice_handler_run (env : Env) (u : Update) (w : World) :
  Bot.voice_handler env u w =
    let w0 := emit (LogInfo (auth_line u)) w in
    match voice (message u) with
    | None => (Raise (AttributeError "file_id"), w0)
    | Some v =>
        let ogg := file_id v +:+ ".ogg" in
        let mp3 := file_id v +:+ ".mp3" in
        let chat := chat_id (effective_chat u) in
        let w1 := emit (GetFile (file_id v)) w0 in
        match telegram_get_file env (trace w0) (file_id v) with
        | Raise e => (Raise e, w1)
        | Ok file =>
            let w2 := emit (DownloadToDrive file ogg) w1 in
            match telegram_download env (trace w1) file with
            | Raise e => (Raise e, w2)
            | Ok data =>
                let w3 := set_fs (<[ogg := data]> (fs w2)) w2 in
                match pydub_ogg_to_mp3 env data with
                | Raise e => (Raise e, w3)
                | Ok audio =>
                    let w4 := set_fs (<[mp3 := audio]> (fs w3)) w3 in
                    match Ai.transcribe env audio w4 with
                    | (Raise e, w5) => (Raise e, w5)
                    | (Ok msg, w5) =>
                        let w6 := emit (SendMessage chat msg) w5 in
                        match telegram_send_message env (trace w5) chat msg with
                        | Raise e => (Raise e, w6)
                        | Ok _ =>
                            (Ok tt, set_fs (delete mp3 (delete ogg (fs w6))) w6)
                        end
                    end
                end
            end
        end
    end.
Proof.
  unfold Bot.voice_handler. rewrite check_authorized_user_run.
  unfold Bot.voice_handler_body. cbn zeta.
  destruct (voice (message u)) as [v|]; [|reflexivity].
  unfold Bot.get_file, Bot.download_to_drive, Bot.ogg_to_mp3, Bot.send_message, call,
    write_file, Bot.open_rb.
  unfold mbind, M_bind, bind, ret; cbn.
  destruct (telegram_get_file env _ _) as [file|e]; [|reflexivity]. cbn.
  destruct (telegram_download env _ _) as [data|e]; [|reflexivity]. cbn.
  rewrite lookup_insert_eq.
  destruct (pydub_ogg_to_mp3 env data) as [audio|e]; [|reflexivity]. cbn.
  rewrite lookup_insert_eq.
  destruct (Ai.transcribe env audio _) as [[msg|e] w5]; [|reflexivity].
  destruct (telegram_send_message env _ _ _) as [[]|e]; [|reflexivity].
  rewrite unlink_true. cbn. rewrite unlink_true. reflexivity.
Qed.

(** X8. An audio message that is not a voice message carries no voice: the
    voice handler, to which [run] routes it, raises [AttributeError] right
    after the line of the gate, before any call to Telegram or OpenAI and
    without touching the storage. *)
Theorem voice_handler_without_voice (env : Env) (u : Update) (w : World) :
  voice (message u) = None ->
  (Bot.voice_handler env u w).1 = Raise (AttributeError "file_id") /\
  new_events (Bot.voice_handler env u) w = [LogInfo (auth_line u)] /\
  fs (Bot.voice_handler env u w).2 = fs w.
Proof.
  intros Hv. rewrite voice_handler_run; cbn zeta. rewrite Hv.
  split; [reflexivity|]. split; [|reflexivity].
  apply new_events_app. rewrite voice_handler_run; cbn zeta. rewrite Hv. reflexivity.
Qed.

Lemma voice_handler_without_voice_witness :
  voice (message (Sample.text_update "")) = None /\
  (Bot.voice_handler (Sample.env_ok "hi") (Sample.text_update "") Sample.world).1
    = Raise (AttributeError "file_id").
Proof.
  split; [reflexivity|].
  apply (voice_handler_without_voice (Sample.env_ok "hi") (Sample.text_update "") Sample.world).
  reflexivity.
Defined.

Lemma delete_insert_two (m : gmap string string) (a b x y : string) :
  delete b (delete a (<[b := y]> (<[a := x]> m))) = delete b (delete a m).
Proof.
  apply map_eq. intros i. rewrite !lookup_delete, !lookup_insert.
  repeat case_decide; congruence.
Qed.

(** X9. When the voice handler returns, the storage is the storage it started
    with, less the two names of its temporary files: it is unchanged when
    those names were free, and a file that had one of these names before
    is gone. *)
Theorem voice_handler_storage (env : Env) (u : Update) (v : Voice) (w w' : World) :
  voice (message u) = Some v ->
  Bot.voice_handler env u w = (Ok tt, w') ->
  fs w' = delete (file_id v +:+ ".mp3") (delete (file_id v +:+ ".ogg") (fs w)) /\
  (fs w !! (file_id v +:+ ".ogg") = None -> fs w !! (file_id v +:+ ".mp3") = None ->
   fs w' = fs w).
Proof.
  intros Hv Hrun.
  assert (E : fs w' = delete (file_id v +:+ ".mp3") (delete (file_id v +:+ ".ogg") (fs w))).
  { rewrite voice_handler_run in Hrun; cbn zeta in Hrun. rewrite Hv in Hrun.
    destruct (telegram_get_file env _ _) as [file|e]; [|discriminate Hrun].
    destruct (telegram_download env _ _) as [data|e]; [|discriminate Hrun].
    destruct (pydub_ogg_to_mp3 env data) as [audio|e]; [|discriminate Hrun].
    match type of Hrun with
    | context [Ai.transcribe env audio ?w4] =>
        pose proof (touches_only_nothing (Ai.transcribe env audio) w4
                      (touches_only_transcribe [] env audio)) as Hfs
    end.
    destruct (Ai.transcribe env audio _) as [[msg|e] w5]; [|discriminate Hrun].
    destruct (telegram_send_message env _ _ _) as [[]|e]; [|discriminate Hrun].
    injection Hrun as <-. cbn [snd] in Hfs. cbn [fs set_fs emit] in *.
    rewrite Hfs. apply delete_insert_two. }
  split; [exact E|]. intros Hogg Hmp3. rewrite E.
  rewrite (delete_id (fs w)) by exact Hogg. now apply delete_id.
Qed.

Lemma voice_handler_storage_witness :
  exists w',
    Bot.voice_handler (Sample.env_ok "hello world") Sample.voice_update
      (set_fs {[ "notes.txt" := "keep"; "v1.mp3" := "old" ]} Sample.world) = (Ok tt, w') /\
    fs w' = {[ "notes.txt" := "keep" ]}.
Proof.
  eexists. split; [vm_compute; reflexivity|].
  destruct (voice_handler_storage (Sample.env_ok "hello world") Sample.voice_update
              {| file_id := "v1" |}
              (set_fs {[ "notes.txt" := "keep"; "v1.mp3" := "old" ]} Sample.world)
              (Bot.voice_handler (Sample.env_ok "hello world") Sample.voice_update
                 (set_fs {[ "notes.txt" := "keep"; "v1.mp3" := "old" ]} Sample.world)).2
              eq_refl) as [H _].
  - vm_compute. reflexivity.
  - vm_compute in H. vm_compute. exact H.
Defined.

Lemma transcribe_starts (env : Env) (audio : string) (w : World) :
  exists evs,
    trace (Ai.transcribe env audio w).2
      = trace w ++ TranscriptionCreate "whisper-1" audio :: evs /\
    Forall (fun ev => kind_of ev <> KTranscription) evs.
Proof.
  pose proof (transcribe_run env audio w) as Hrun; cbn zeta in Hrun. rewrite Hrun.
  destruct (openai_transcription_create env _ _ _) as [response|e];
    [|exists []; now split].
  destruct (response !! "text") as [transcript|]; [|exists []; now split].
  pose proof (catify_run env transcript (emit (TranscriptionCreate "whisper-1" audio) w))
    as Hc; cbn zeta in Hc. rewrite Hc.
  destruct (openai_chat_completions_create env _ _ _) as [completion|e];
    [destruct (choices completion) as [|ch rest]|];
    cbn; rewrite <- ?app_assoc; eexists; (split; [reflexivity|]);
    repeat constructor; discriminate.
Qed.

(** X10. When the voice handler raises, it has deleted nothing: every file
    that existed before still exists. If the transcription had been
    requested by then, the downloaded file and its transcoded copy are
    both on disk, the second being the conversion of the first. *)
Theorem voice_handler_failure (env : Env) (u : Update) (v : Voice) (w w' : World) (e : Exn) :
  voice (message u) = Some v ->
  Bot.voice_handler env u w = (Raise e, w') ->
  (forall path, is_Some (fs w !! path) -> is_Some (fs w' !! path)) /\
  (forall mdl audio,
     TranscriptionCreate mdl audio ∈ new_events (Bot.voice_handler env u) w ->
     exists data,
       fs w' !! (file_id v +:+ ".ogg") = Some data /\
       pydub_ogg_to_mp3 env data = Ok audio /\
       fs w' !! (file_id v +:+ ".mp3") = Some audio).
Proof.
  intros Hv Hrun.
  assert (Hnew : new_events (Bot.voice_handler env u) w = drop (length (trace w)) (trace w'))
    by (unfold new_events; now rewrite Hrun).
  rewrite Hnew. clear Hnew.
  rewrite voice_handler_run in Hrun; cbn zeta in Hrun. rewrite Hv in Hrun.
  destruct (telegram_get_file env _ _) as [file|e1].
  2:{ injection Hrun as <- <-. split; [intros path H; exact H|].
      intros mdl audio Hin. cbn in Hin. rewrite <- app_assoc, drop_app_length in Hin.
      repeat (apply elem_of_cons in Hin as [Hin|Hin]; [discriminate Hin|]).
      now apply not_elem_of_nil in Hin. }
  destruct (telegram_download env _ _) as [data|e1].
  2:{ injection Hrun as <- <-. split; [intros path H; exact H|].
      intros mdl audio Hin. cbn in Hin. rewrite <- !app_assoc, drop_app_length in Hin.
      repeat (apply elem_of_cons in Hin as [Hin|Hin]; [discriminate Hin|]).
      now apply not_elem_of_nil in Hin. }
  destruct (pydub_ogg_to_mp3 env data) as [audio|e1] eqn:Epy.
  2:{ injection Hrun as <- <-. split.
      - intros path H. cbn. rewrite lookup_insert. case_decide; [eauto|exact H].
      - intros mdl audio Hin. cbn in Hin. rewrite <- !app_assoc, drop_app_length in Hin.
        repeat (apply elem_of_cons in Hin as [Hin|Hin]; [discriminate Hin|]).
        now apply not_elem_of_nil in Hin. }
  match type of Hrun with
  | context [Ai.transcribe env audio ?w4] =>
      pose proof (touches_only_nothing (Ai.transcribe env audio) w4
                    (touches_only_transcribe [] env audio)) as Hfs;
      destruct (transcribe_starts env audio w4) as (evs & Htr & Hevs)
  end.
  cbn [trace emit set_fs fs] in Htr, Hfs. rewrite <- !app_assoc in Htr. cbn [app] in Htr.
  assert (Hfiles : forall w5 : World,
            fs w5 = <[file_id v +:+ ".mp3" := audio]>
                      (<[file_id v +:+ ".ogg" := data]> (fs w)) ->
            (forall path, is_Some (fs w !! path) -> is_Some (fs w5 !! path)) /\
            (exists data0,
               fs w5 !! (file_id v +:+ ".ogg") = Some data0 /\
               pydub_ogg_to_mp3 env data0 = Ok audio /\
               fs w5 !! (file_id v +:+ ".mp3") = Some audio)).
  { intros w5 ->. split.
    - intros path H. rewrite !lookup_insert. repeat case_decide; eauto.
    - destruct (decide (file_id v +:+ ".mp3" = file_id v +:+ ".ogg")) as [E|N].
      + apply (inj (String.append (file_id v))) in E. discriminate E.
      + exists data. rewrite lookup_insert_ne by exact N.
        rewrite !lookup_insert_eq. now repeat split. }
  assert (Hone : forall mdl audio' (tl : list Event),
            Forall (fun ev => kind_of ev <> KTranscription) tl ->
            TranscriptionCreate mdl audio'
              ∈ drop (length (trace w))
                  (trace w ++ LogInfo (auth_line u) :: GetFile (file_id v)
                     :: DownloadToDrive file (file_id v +:+ ".ogg")
                     :: TranscriptionCreate "whisper-1" audio :: evs ++ tl) ->
            audio' = audio).
  { intros mdl audio' tl Htl Hin. rewrite drop_app_length in Hin.
    repeat (apply elem_of_cons in Hin as [Hin|Hin]; [discriminate Hin|]).
    apply elem_of_cons in Hin as [Hin|Hin]; [now injection Hin|].
    apply elem_of_app in Hin as [Hin|Hin];
      [rewrite Forall_forall in Hevs; now apply Hevs in Hin
      |rewrite Forall_forall in Htl; now apply Htl in Hin]. }
  destruct (Ai.transcribe env audio _) as [[msg|e1] w5]; cbn [snd] in Hfs, Htr.
  - destruct (telegram_send_message env _ _ _) as [[]|e1]; [discriminate Hrun|].
    injection Hrun as <- <-. destruct (Hfiles w5 Hfs) as [H1 H2].
    split; [exact H1|]. intros mdl audio' Hin. cbn [trace emit fs] in Hin |- *.
    rewrite Htr in Hin. rewrite <- !app_assoc in Hin. cbn [app] in Hin.
    rewrite (Hone mdl audio' [SendMessage (chat_id (effective_chat u)) msg]); [exact H2| |exact Hin].
    repeat constructor; discriminate.
  - injection Hrun as <- <-. destruct (Hfiles w5 Hfs) as [H1 H2].
    split; [exact H1|]. intros mdl audio' Hin.
    rewrite Htr in Hin. 
    rewrite (Hone mdl audio' []); [exact H2|constructor|now rewrite app_nil_r].
Qed.

Lemma voice_handler_failure_witness :
  let r := Bot.voice_handler Sample.env_stt_down Sample.voice_update Sample.world in
  exists data,
    fs r.2 !! "v1.ogg" = Some data /\
    pydub_ogg_to_mp3 Sample.env_stt_down data = Ok "ID3" /\
    fs r.2 !! "v1.mp3" = Some "ID3".
Proof.
  cbn zeta.
  destruct (voice_handler_failure Sample.env_stt_down Sample.voice_update {| file_id := "v1" |}
              Sample.world
              (Bot.voice_handler Sample.env_stt_down Sample.voice_update Sample.world).2
              (ServiceError "transcription") eq_refl) as [_ H].
  - vm_compute. reflexivity.
  - apply (H "whisper-1" "ID3"). vm_compute. repeat constructor.
Defined.

(** X11. When the voice handler returns, it has made, in this order and once
    each: the log line of the gate, the lookup of the file, its download
    to the .ogg file, the transcription request on the transcoded audio
    (not on the download), the completion request of [catify] on the
    transcript less its first word, and the message carrying the first
    choice of the completion back to the chat of the update. *)
Theorem voice_handler_success (env : Env) (u : Update) (v : Voice) (w w' : World) :
  voice (message u) = Some v ->
  Bot.voice_handler env u w = (Ok tt, w') ->
  exists file data audio transcript answer,
    new_events (Bot.voice_handler env u) w =
      [LogInfo (auth_line u);
       GetFile (file_id v);
       DownloadToDrive file (file_id v +:+ ".ogg");
       TranscriptionCreate "whisper-1" audio;
       LogInfo ("catify was called with " +:+ transcript);
       ChatCompletionsCreate (model (catifier (self w)))
         [cat_config (catifier (self w)); Ai.instruction;
          Ai.user (Ai.stripped transcript)];
       LogInfo ("catify is returning " +:+ answer);
       SendMessage (chat_id (effective_chat u)) answer] /\
    (exists h, telegram_get_file env h (file_id v) = Ok file) /\
    (exists h, telegram_download env h file = Ok data) /\
    pydub_ogg_to_mp3 env data = Ok audio /\
    (exists h response,
       openai_transcription_create env h "whisper-1" audio = Ok response /\
       response !! "text" = Some transcript) /\
    (exists h completion ch rest,
       openai_chat_completions_create env h (model (catifier (self w)))
         [cat_config (catifier (self w)); Ai.instruction;
          Ai.user (Ai.stripped transcript)] = Ok completion /\
       choices completion = ch :: rest /\
       answer = content (choice_message ch)).
Proof.
  intros Hv Hrun.
  assert (Hnew : new_events (Bot.voice_handler env u) w = drop (length (trace w)) (trace w'))
    by (unfold new_events; now rewrite Hrun).
  rewrite Hnew. clear Hnew.
  rewrite voice_handler_run in Hrun; cbn zeta in Hrun. rewrite Hv in Hrun.
  destruct (telegram_get_file env _ _) as [file|e] eqn:Eg; [|discriminate Hrun].
  destruct (telegram_download env _ _) as [data|e] eqn:Ed; [|discriminate Hrun].
  destruct (pydub_ogg_to_mp3 env data) as [audio|e] eqn:Ep; [|discriminate Hrun].
  rewrite transcribe_run in Hrun; cbn zeta in Hrun.
  destruct (openai_transcription_create env _ _ _) as [response|e] eqn:Et;
    [|discriminate Hrun].
  destruct (response !! "text") as [transcript|] eqn:Ex; [|discriminate Hrun].
  rewrite catify_run in Hrun; cbn zeta in Hrun.
  destruct (openai_chat_completions_create env _ _ _) as [completion|e] eqn:Ec;
    [|discriminate Hrun].
  destruct (choices completion) as [|ch rest] eqn:Eh; [discriminate Hrun|].
  destruct (telegram_send_message env _ _ _) as [[]|e]; [|discriminate Hrun].
  injection Hrun as <-.
  exists file, data, audio, transcript, (content (choice_message ch)).
  split; [cbn; rewrite <- !app_assoc; cbn; now rewrite drop_app_length|].
  split; [eexists; exact Eg|]. split; [eexists; exact Ed|]. split; [exact Ep|].
  split; [eexists; exists response; split; [exact Et|exact Ex]|].
  eexists. exists completion, ch, rest. cbn [self emit set_fs] in Ec.
  split; [exact Ec|]. now split.
Qed.

Lemma voice_handler_success_witness :
  exists file data transcript,
    new_events (Bot.voice_handler (Sample.env_ok "hello kitty") Sample.voice_update)
      Sample.world =
      [LogInfo "Authorized access from user: alice)";
       GetFile "v1";
       DownloadToDrive file "v1.ogg";
       TranscriptionCreate "whisper-1" "ID3";
       LogInfo ("catify was called with " +:+ transcript);
       ChatCompletionsCreate "gpt-4o-mini"
         [Ai.persona; Ai.instruction; Ai.user (Ai.stripped transcript)];
       LogInfo "catify is returning Meow";
       SendMessage 42 "Meow"] /\
    pydub_ogg_to_mp3 (Sample.env_ok "hello kitty") data = Ok "ID3".
Proof.
  destruct (voice_handler_success (Sample.env_ok "hello kitty") Sample.voice_update
              {| file_id := "v1" |} Sample.world
              (Bot.voice_handler (Sample.env_ok "hello kitty") Sample.voice_update
                 Sample.world).2 eq_refl)
    as (file & data & audio & transcript & answer & Hev & _ & _ & Hp & _ & Hc).
  - vm_compute. reflexivity.
  - destruct Hc as (h & completion & ch & rest & Hc & Hch & ->).
    injection Hc as <-. injection Hch as <- _.
    injection Hp as <-.
    exists file, data, transcript. split; [exact Hev | reflexivity].
Defined.

(** ** One attempt per external call *)

Lemma count_kind_app (kd : Kind) (l k : list Event) :
  count_kind kd (l ++ k) = (count_kind kd l + count_kind kd k)%nat.
Proof. unfold count_kind. now rewrite filter_app, length_app. Qed.

Lemma bounded_pure (kd : Kind) {A} (r : Result A) : bounded kd 0 (fun w => (r, w)).
Proof. intros w. exists []. split; [now rewrite app_nil_r | reflexivity]. Qed.

Lemma bounded_ret (kd : Kind) {A} (a : A) : bounded kd 0 (ret a).
Proof. exact (bounded_pure kd (Ok a)). Qed.

Lemma bounded_raise (kd : Kind) {A} (e : Exn) : bounded kd 0 (raise (A := A) e).
Proof. exact (bounded_pure kd (Raise e)). Qed.

Lemma bounded_get_self (kd : Kind) : bounded kd 0 get_self.
Proof. intros w. exists []. split; [cbn; now rewrite app_nil_r | reflexivity]. Qed.

Lemma bounded_index (kd : Kind) {A} (l : list A) (i : nat) : bounded kd 0 (index l i).
Proof. unfold index. destruct (l !! i); [apply bounded_ret | apply bounded_raise]. Qed.

Lemma bounded_getitem (kd : Kind) {A} (d : gmap string A) (key : string) :
  bounded kd 0 (getitem d key).
Proof. unfold getitem. destruct (d !! key); [apply bounded_ret | apply bounded_raise]. Qed.

Lemma bounded_write_file (kd : Kind) (path data : string) :
  bounded kd 0 (write_file path data).
Proof. intros w. exists []. split; [cbn; now rewrite app_nil_r | reflexivity]. Qed.

Lemma bounded_open_rb (kd : Kind) (path : string) : bounded kd 0 (Bot.open_rb path).
Proof.
  intros w. exists []. unfold Bot.open_rb.
  destruct (fs w !! path); (split; [cbn; now rewrite app_nil_r | reflexivity]).
Qed.

Lemma bounded_unlink (kd : Kind) (path : string) (missing_ok : bool) :
  bounded kd 0 (Bot.unlink path missing_ok).
Proof.
  intros w. exists []. unfold Bot.unlink.
  destruct (fs w !! path); [|destruct missing_ok];
    (split; [cbn; now rewrite app_nil_r | reflexivity]).
Qed.

Lemma bounded_call (kd : Kind) {A} (ev : Event) (answer : list Event -> Result A) :
  bounded kd (if decide (kind_of ev = kd) then 1 else 0) (call ev answer).
Proof.
  intros w. exists [ev]. split; [reflexivity|].
  unfold count_kind. rewrite filter_cons, filter_nil. now case_decide.
Qed.

Lemma bounded_call_kind (kd k : Kind) {A} (ev : Event) (answer : list Event -> Result A) :
  kind_of ev = k -> bounded kd (if decide (k = kd) then 1 else 0) (call ev answer).
Proof. intros <-. apply bounded_call. Qed.

Lemma bounded_log_info (kd : Kind) (line : string) :
  bounded kd (if decide (KLog = kd) then 1 else 0) (log_info line).
Proof.
  intros w. exists [LogInfo line]. split; [reflexivity|].
  unfold count_kind. rewrite filter_cons, filter_nil. cbn [kind_of]. now case_decide.
Qed.

Lemma bounded_bind (kd : Kind) (n1 n2 : nat) {A B} (c : M A) (k : A -> M B) :
  bounded kd n1 c -> (forall a, bounded kd n2 (k a)) -> bounded kd (n1 + n2) (c ≫= k).
Proof.
  intros Hc Hk w. unfold mbind, M_bind, bind.
  destruct (Hc w) as (evs & Htr & Hn).
  destruct (c w) as [[a|e] w1]; cbn [snd] in *.
  - destruct (Hk a w1) as (evs' & Htr' & Hn').
    exists (evs ++ evs'). split; [rewrite Htr', Htr; now rewrite app_assoc|].
    rewrite count_kind_app. lia.
  - exists evs. split; [exact Htr | lia].
Qed.

Lemma bounded_weaken (kd : Kind) (n m : nat) {A} (c : M A) :
  bounded kd n c -> n <= m -> bounded kd m c.
Proof.
  intros Hc Hle w. destruct (Hc w) as (evs & Htr & Hn). exists evs. split; [exact Htr | lia].
Qed.

Create HintDb bounded.

#[local] Hint Resolve bounded_pure bounded_ret bounded_raise bounded_get_self bounded_index
  bounded_getitem bounded_write_file bounded_open_rb bounded_unlink bounded_log_info
  : bounded.

Ltac bounded_call_step kd :=
  first
    [ eapply (bounded_call_kind kd KChat); reflexivity
    | eapply (bounded_call_kind kd KTranscription); reflexivity
    | eapply (bounded_call_kind kd KImage); reflexivity
    | eapply (bounded_call_kind kd KSend); reflexivity
    | eapply (bounded_call_kind kd KGetFile); reflexivity
    | eapply (bounded_call_kind kd KDownload); reflexivity
    | eapply (bounded_call_kind kd KInlineAnswer); reflexivity ].

Ltac bounded_steps kd :=
  repeat first
    [ solve [eauto with bounded]
    | bounded_call_step kd
    | eapply bounded_bind; [|intros ?] ].

Lemma bounded_catify (kd : Kind) (env : Env) (t : string) :
  bounded kd ((if decide (KLog = kd) then 2 else 0) + (if decide (KChat = kd) then 1 else 0))
    (Ai.catify env t).
Proof.
  eapply bounded_weaken.
  - unfold Ai.catify, Ai.chat_completions_create. rewrite strip_step. bounded_steps kd.
  - cbn [kind_of]. repeat case_decide; lia.
Qed.

Lemma bounded_reply (kd : Kind) (env : Env) (t : string) :
  bounded kd ((if decide (KLog = kd) then 2 else 0) + (if decide (KChat = kd) then 1 else 0))
    (Ai.reply env t).
Proof.
  eapply bounded_weaken.
  - unfold Ai.reply, Ai.chat_completions_create. bounded_steps kd.
  - cbn [kind_of]. repeat case_decide; lia.
Qed.

Lemma bounded_transcribe (kd : Kind) (env : Env) (audio : string) :
  bounded kd ((if decide (KLog = kd) then 2 else 0) + (if decide (KChat = kd) then 1 else 0)
              + (if decide (KTranscription = kd) then 1 else 0))
    (Ai.transcribe env audio).
Proof.
  eapply bounded_weaken.
  - unfold Ai.transcribe, Ai.transcription_create.
    eapply bounded_bind; [bounded_call_step kd|intros ?].
    eapply bounded_bind; [eauto with bounded|intros ?].
    eapply bounded_bind; [apply bounded_catify|intros ?]. eauto with bounded.
  - cbn [kind_of]. repeat case_decide; lia.
Qed.

Lemma bounded_generate_image (kd : Kind) (env : Env) (prompt size : string) :
  bounded kd ((if decide (KLog = kd) then 2 else 0) + (if decide (KImage = kd) then 1 else 0))
    (Ai.generate_image env prompt size).
Proof.
  eapply bounded_weaken.
  - unfold Ai.generate_image, Ai.image_create. bounded_steps kd.
  - cbn [kind_of]. repeat case_decide; lia.
Qed.

Lemma bounded_handle (kd : Kind) (env : Env) (h : Bot.Handler) (u : Update) :
  bounded kd (if decide (KLog = kd) then 3 else 1) (Bot.handle env h u).
Proof.
  destruct h; cbn [Bot.handle]; eapply bounded_weaken.
  - unfold Bot.start, Bot.send_message. bounded_steps kd.
  - destruct kd; repeat case_decide; try congruence; lia.
  - unfold Bot.inline_query, Bot.inline_answer.
    destruct (String.eqb _ _); [eapply bounded_weaken; [apply bounded_ret|]|].
    2: bounded_steps kd. apply Nat.le_0_l.
  - destruct kd; repeat case_decide; try congruence; lia.
  - unfold Bot.reply, Bot.check_authorized_user, Bot.reply_body, Bot.send_message.
    eapply bounded_bind; [eauto with bounded|intros _].
    destruct (negb _); [eapply bounded_weaken; [apply bounded_ret|]|].
    2:{ eapply bounded_bind; [apply bounded_reply|intros ?]. bounded_steps kd. }
    apply Nat.le_0_l.
  - destruct kd; repeat case_decide; try congruence; lia.
  - unfold Bot.catify, Bot.check_authorized_user, Bot.catify_body, Bot.send_message.
    eapply bounded_bind; [eauto with bounded|intros _].
    eapply bounded_bind; [apply bounded_catify|intros ?]. bounded_steps kd.
  - destruct kd; repeat case_decide; try congruence; lia.
  - unfold Bot.generate_image, Bot.send_message.
    eapply bounded_bind; [apply bounded_generate_image|intros ?]. bounded_steps kd.
  - destruct kd; repeat case_decide; try congruence; lia.
  - unfold Bot.voice_handler, Bot.check_authorized_user, Bot.voice_handler_body,
      Bot.send_message, Bot.get_file, Bot.download_to_drive, Bot.ogg_to_mp3.
    eapply bounded_bind; [eauto with bounded|intros _].
    eapply bounded_bind;
      [destruct (voice (message u)); [apply bounded_ret | apply bounded_raise]|intros ?].
    eapply bounded_bind; [bounded_call_step kd|intros ?].
    eapply bounded_bind; [bounded_steps kd|intros ?].
    eapply bounded_bind; [bounded_steps kd|intros ?].
    eapply bounded_bind; [eauto with bounded|intros ?].
    eapply bounded_bind; [apply bounded_transcribe|intros ?].
    bounded_steps kd.
  - destruct kd; repeat case_decide; try congruence; lia.
  - unfold Bot.help, Bot.send_message. bounded_steps kd.
  - destruct kd; repeat case_decide; try congruence; lia.
Qed.

(** X12. While it handles one update, the code of the bot invokes each
    method of its clients at most once, whatever they answer: the
    completion, transcription and image methods of the OpenAI client, and
    the file lookup, download, inline answer and send methods of Telegram.
    The bot itself never calls a method again after a failure; what a
    client library does inside one invocation is not part of this count.
    It writes at most three log lines. *)
Theorem one_attempt_per_update (env : Env) (h : Bot.Handler) (u : Update) (w : World)
    (kd : Kind) :
  count_kind kd (new_events (Bot.handle env h u) w) <= (if decide (KLog = kd) then 3 else 1).
Proof.
  destruct (bounded_handle kd env h u w) as (evs & Htr & Hn).
  now rewrite (new_events_app _ _ _ Htr).
Qed.

(** ** Failures of the proxy in the text handlers *)

Lemma handler_after_proxy (env : Env) (u : Update) (w : World) (op : M string) :
  bounded KSend 0 op ->
  let chat := chat_id (effective_chat u) in
  let w1 := emit (LogInfo (auth_line u)) w in
  let run := (response ← op; Bot.send_message env chat response) w1 in
  (forall a, (op w1).1 = Ok a ->
     exists evs,
       drop (length (trace w)) (trace run.2)
         = LogInfo (auth_line u) :: evs ++ [SendMessage chat a] /\
       count_kind KSend evs = 0%nat) /\
  (forall e, (op w1).1 = Raise e ->
     run.1 = Raise e /\
     count_kind KSend (drop (length (trace w)) (trace run.2)) = 0%nat).
Proof.
  intros Hb. cbn zeta.
  destruct (Hb (emit (LogInfo (auth_line u)) w)) as (evs & Htr & Hn).
  unfold mbind, M_bind, bind, Bot.send_message, call.
  destruct (op (emit (LogInfo (auth_line u)) w)) as [[r|e0] w2]; cbn [fst snd] in *.
  - split; [|intros e H; discriminate H]. intros a H. injection H as <-.
    exists evs. split; [|lia]. cbn [trace emit]. rewrite Htr. cbn [trace emit].
    rewrite <- !app_assoc. now rewrite drop_app_length.
  - split; [intros a H; discriminate H|]. intros e H. injection H as <-.
    split; [reflexivity|]. rewrite Htr. cbn [trace emit].
    rewrite <- !app_assoc, drop_app_length. cbn [app].
    change (LogInfo (auth_line u) :: evs) with ([LogInfo (auth_line u)] ++ evs).
    rewrite count_kind_app. unfold count_kind at 1. rewrite filter_cons, filter_nil.
    case_decide; [discriminate|]. cbn. lia.
Qed.

(** X13. In the catify handler, and in the text handler on a text that
    mentions the bot: when the proxy returns an answer, the handler sends
    that answer, once, to the chat of the update, as its last action; when
    the proxy raises (the service failed or gave no choice), the handler
    raises the same exception and sends nothing, so the user gets no
    notice of the failure. *)
Theorem text_handlers_failure (env : Env) (u : Update) (w : World) :
  let t := text (message u) in
  let chat := chat_id (effective_chat u) in
  let w1 := emit (LogInfo (auth_line u)) w in
  (forall a, (Ai.catify env t w1).1 = Ok a ->
     exists evs,
       new_events (Bot.catify env u) w = LogInfo (auth_line u) :: evs ++ [SendMessage chat a] /\
       count_kind KSend evs = 0%nat) /\
  (forall e, (Ai.catify env t w1).1 = Raise e ->
     (Bot.catify env u w).1 = Raise e /\
     count_kind KSend (new_events (Bot.catify env u) w) = 0%nat) /\
  (Spec.mentions_bot t ->
     (forall a, (Ai.reply env t w1).1 = Ok a ->
        exists evs,
          new_events (Bot.reply env u) w
            = LogInfo (auth_line u) :: evs ++ [SendMessage chat a] /\
          count_kind KSend evs = 0%nat) /\
     (forall e, (Ai.reply env t w1).1 = Raise e ->
        (Bot.reply env u w).1 = Raise e /\
        count_kind KSend (new_events (Bot.reply env u) w) = 0%nat)).
Proof.
  cbn zeta.
  assert (Hc : bounded KSend 0 (Ai.catify env (text (message u))))
    by (eapply bounded_weaken; [apply bounded_catify | repeat case_decide; try congruence; lia]).
  assert (Hr : bounded KSend 0 (Ai.reply env (text (message u))))
    by (eapply bounded_weaken; [apply bounded_reply | repeat case_decide; try congruence; lia]).
  destruct (handler_after_proxy env u w _ Hc) as [C1 C2].
  destruct (handler_after_proxy env u w _ Hr) as [R1 R2].
  cbn zeta in C1, C2, R1, R2.
  split; [exact C1|]. split; [exact C2|].
  intros Hm. apply mention_search in Hm.
  pose proof (bot_reply_run env u w) as Hrun; cbn zeta in Hrun. rewrite Hm in Hrun.
  unfold new_events. rewrite Hrun. split; [exact R1 | exact R2].
Qed.

Lemma text_handlers_failure_witness :
  Spec.mentions_bot "@catgpt hi" /\
  exists evs,
    new_events (Bot.reply (Sample.env_ok "") (Sample.text_update "@catgpt hi")) Sample.world
      = LogInfo "Authorized access from user: alice)" :: evs ++ [SendMessage 42 "Meow"].
Proof.
  assert (Hm : Spec.mentions_bot "@catgpt hi").
  { exists "", "catgpt", " hi". repeat split. left. reflexivity. }
  split; [exact Hm|].
  destruct (text_handlers_failure (Sample.env_ok "") (Sample.text_update "@catgpt hi")
              Sample.world) as (_ & _ & H).
  destruct (H Hm) as [H1 _]. destruct (H1 "Meow") as (evs & Hev & _).
  - vm_compute. reflexivity.
  - exists evs. exact Hev.
Defined.



(** ** More on the mention gate *)


Lemma contains_app (c : ascii) (a b : string) :
  PyStr.contains c (a +:+ b) = PyStr.contains c a || PyStr.contains c b.
Proof.
  induction a as [|x a IH]; cbn; [reflexivity|]. now rewrite IH, orb_assoc.
Qed.

(** X15. The pattern has a word boundary after the handle and nothing before
    the at sign. So a text without an at sign is always dropped by the
    text handler, with no request and no message; a text that is let
    through is still let through with anything put before it, and with
    anything put after it that does not start with a word character. *)
Theorem gate_context (env : Env) (u : Update) (w : World) (t pre post : string) :
  (PyStr.contains "@" (text (message u)) = false ->
   Bot.reply env u w = (Ok tt, emit (LogInfo (auth_line u)) w)) /\
  (Re.search true Bot.mention_pattern t = true ->
   Re.search true Bot.mention_pattern (pre +:+ t) = true) /\
  (Re.search true Bot.mention_pattern t = true ->
   Re.is_word_at (Re.head post) = false ->
   Re.search true Bot.mention_pattern (t +:+ post) = true).
Proof.
  split; [|split].
  - intros Hat. pose proof (bot_reply_run env u w) as Hrun; cbn zeta in Hrun.
    destruct (Re.search true Bot.mention_pattern (text (message u))) eqn:E; [|exact Hrun].
    apply mention_search in E as (p & h & q & Ht & _).
    rewrite Ht, contains_app in Hat. cbn in Hat.
    rewrite orb_true_r in Hat. discriminate Hat.
  - rewrite !mention_search. intros (p & h & q & -> & Hh & Hw).
    exists (pre +:+ p), h, q. now rewrite append_assoc.
  - rewrite !mention_search. intros (p & h & q & -> & Hh & Hw) Hpost.
    exists p, h, (q +:+ post). split; [|split; [exact Hh|]].
    + rewrite append_assoc. cbn. now rewrite append_assoc.
    + destruct q; [exact Hpost | exact Hw].
Qed.

Lemma gate_context_witness :
  Bot.reply (Sample.env_ok "") (Sample.text_update "hey there") Sample.world
    = (Ok tt, emit (LogInfo "Authorized access from user: alice)") Sample.world) /\
  Re.search true Bot.mention_pattern ("mail" +:+ "@catgpt") = true /\
  Re.search true Bot.mention_pattern ("@catgpt" +:+ ".com") = true.
Proof.
  destruct (gate_context (Sample.env_ok "") (Sample.text_update "hey there")
              Sample.world "@catgpt" "mail" ".com") as (H1 & H2 & H3).
  split; [apply H1; reflexivity|]. split; [apply H2; reflexivity|].
  apply H3; reflexivity.
Defined.
